(** * TiltR scoring oracle and result comparator: a Rocq embedding

    This development embeds the parts of the TiltR test driver that decide
    how scores are computed and how two result records are compared:

    - [tiltr/data/result.py]: [MaybeDecimal], the rounding helpers,
      [_normalize_json], the property store of [Result], its
      serialisation and [Result.check_against];
    - [tiltr/question/questions/matching.py]: the maximum score of a
      matching question and the score of an answer;
    - [testilias/question/questions/cloze.py]: gap scoring and
      [compute_score_by_indices];
    - [tiltr/driver/exam_configuration.py]: the exam settings and the
      clipping of a score;
    - [tiltr/http/discovery.py]: the discovery of the test machines.

    Python values are embedded as follows.  A [str] is a Rocq [string]
    (texts are taken over the ASCII alphabet).  A [decimal.Decimal] is a
    value of [PyDecimal.Decimal] (sign, coefficient and exponent, or one of
    the special values).  A raised exception is the [Raises] case of
    [Outcome].  A [dict] whose iteration order is irrelevant to the code is
    a [gmap]; where the order of iteration decides the result it is an
    association list in insertion order. *)

From Stdlib Require Import ZArith NArith List String Ascii Lia QArith Qminmax Lqa.
From stdpp Require Import gmap strings list sorting.
Import ListNotations.

Local Open Scope string_scope.
Local Open Scope list_scope.

(** ** Exceptions *)

Inductive PyError : Type :=
| RuntimeError (msg : string)
| InvalidOperation
| Overflow
| IndexError
| KeyError
| AssertionError
| ValueError
| OutsideModel.

Inductive Outcome (A : Type) : Type :=
| Returns (a : A)
| Raises (e : PyError).

Arguments Returns {A} a.
Arguments Raises {A} e.

Definition bind {A B : Type} (m : Outcome A) (k : A → Outcome B) : Outcome B :=
  match m with
  | Returns a => k a
  | Raises e => Raises e
  end.

Notation "x ←! m ; k" := (bind m (λ x, k))
  (at level 20, m at level 100, k at level 200, only parsing,
   right associativity).
Notation "' x ←! m ; k" := (bind m (λ x, k))
  (at level 20, x pattern, m at level 100, k at level 200, only parsing,
   right associativity).

(** The loop [for x in l: ys.append(f(x))], stopped by the first
    exception. *)
Fixpoint for_each {A B : Type} (f : A → Outcome B) (l : list A)
  : Outcome (list B) :=
  match l with
  | [] => Returns []
  | x :: l' => y ←! f x; ys ←! for_each f l'; Returns (y :: ys)
  end.

Definition returned {A : Type} (m : Outcome A) : Prop := ∃ a, m = Returns a.

(** ** Python [str] methods used by the sources *)

Module PyStr.

Definition chars (s : string) : list ascii := list_ascii_of_string s.
Definition text (l : list ascii) : string := string_of_list_ascii l.

Definition code (c : ascii) : N := N_of_ascii c.

(** [str.isspace] on the ASCII range: TAB..CR, FS..US and SPACE. *)
Definition is_space (c : ascii) : bool :=
  ((9 <=? code c) && (code c <=? 13) || (28 <=? code c) && (code c <=? 32))%N.

Definition is_digit (c : ascii) : bool :=
  ((48 <=? code c) && (code c <=? 57))%N.

Definition is_upper (c : ascii) : bool :=
  ((65 <=? code c) && (code c <=? 90))%N.

Definition lower (c : ascii) : ascii :=
  if is_upper c then ascii_of_N (code c + 32) else c.

Definition eqc (a b : ascii) : bool := Ascii.eqb a b.

Fixpoint lstrip_if (p : ascii → bool) (l : list ascii) : list ascii :=
  match l with
  | c :: r => if p c then lstrip_if p r else l
  | [] => []
  end.

Definition rstrip_if (p : ascii → bool) (l : list ascii) : list ascii :=
  rev (lstrip_if p (rev l)).

(** [s.strip()] *)
Definition strip (l : list ascii) : list ascii :=
  rstrip_if is_space (lstrip_if is_space l).

(** [s.rstrip(c)] for a one-character argument *)
Definition rstrip (c : ascii) (l : list ascii) : list ascii :=
  rstrip_if (eqc c) l.

(** [s.replace(c, '')] for a one-character [c] *)
Definition remove (c : ascii) (l : list ascii) : list ascii :=
  List.filter (λ x, negb (eqc c x)) l.

(** [c in s] *)
Definition contains (c : ascii) (l : list ascii) : bool :=
  existsb (eqc c) l.

(** [s.endswith(c)] *)
Definition endswith (c : ascii) (l : list ascii) : bool :=
  match rev l with
  | x :: _ => eqc c x
  | [] => false
  end.

(** [s.casefold()]; on ASCII text this lowers the letters A..Z. *)
Definition casefold (s : string) : string :=
  text (List.map lower (chars s)).

(** The longest prefix of characters satisfying [p], and the rest. *)
Fixpoint span (p : ascii → bool) (l : list ascii) : list ascii * list ascii :=
  match l with
  | c :: r =>
      if p c then let '(a, b) := span p r in (c :: a, b) else ([], l)
  | [] => ([], [])
  end.

(** [str(int(digits))] and [int(digits)] for a non-negative integer. *)
Definition digit_val (c : ascii) : N := (code c - 48)%N.
Definition digit_chr (d : N) : ascii := ascii_of_N (48 + d).

Definition int_of_digits (l : list ascii) : N :=
  fold_left (λ acc c, (10 * acc + digit_val c)%N) l 0%N.

Fixpoint digits_aux (fuel : nat) (n : N) (acc : list ascii) : list ascii :=
  match fuel with
  | O => acc
  | S f =>
      if (n <? 10)%N then digit_chr n :: acc
      else digits_aux f (n / 10)%N (digit_chr (n mod 10)%N :: acc)
  end.

Definition digits_of_N (n : N) : list ascii :=
  digits_aux (S (N.size_nat n)) n [].

(** [len(str(n))] *)
Definition ndigits (n : N) : Z := Z.of_nat (length (digits_of_N n)).

(** [str(z)] and ["%+d" % z] for an integer. *)
Definition digits_of_Z (z : Z) : list ascii :=
  if (z <? 0)%Z then "-"%char :: digits_of_N (Z.abs_N z)
  else digits_of_N (Z.abs_N z).

Definition signed_digits_of_Z (z : Z) : list ascii :=
  (if (z <? 0)%Z then "-"%char else "+"%char) :: digits_of_N (Z.abs_N z).

Definition zeros (n : Z) : list ascii := repeat "0"%char (Z.to_nat n).

End PyStr.

(** ** Python's [decimal] module

    Modelled from the Python standard library ([decimal], default context:
    precision 28, Emax 999999, Emin -999999, InvalidOperation and Overflow
    trapped): the constructor from text, [str], [quantize] and the order
    comparison, which are the operations the sources call. *)

Module PyDecimal.
Import PyStr.

Inductive Decimal : Type :=
| Finite (sign : bool) (coeff : N) (exp : Z)
| Infinity (sign : bool)
| NaN (sign : bool) (signaling : bool) (payload : N).

Definition prec : Z := 28.
Definition Emax : Z := 999999.
Definition Emin : Z := -999999.
Definition Etiny : Z := Emin - prec + 1.

(** *** [str(d)] *)

Definition sign_chars (s : bool) : list ascii :=
  if s then ["-"%char] else [].

Definition payload_chars (p : N) : list ascii :=
  if (p =? 0)%N then [] else digits_of_N p.

Definition to_chars (d : Decimal) : list ascii :=
  match d with
  | Infinity s => sign_chars s ++ chars "Infinity"
  | NaN s false p => sign_chars s ++ chars "NaN" ++ payload_chars p
  | NaN s true p => sign_chars s ++ chars "sNaN" ++ payload_chars p
  | Finite s c e =>
      let int := digits_of_N c in
      let len := Z.of_nat (length int) in
      let leftdigits := (e + len)%Z in
      let dotplace :=
        if ((e <=? 0) && (-6 <? leftdigits))%Z then leftdigits else 1%Z in
      let '(intpart, fracpart) :=
        if (dotplace <=? 0)%Z then
          (["0"%char], "."%char :: zeros (- dotplace) ++ int)
        else if (len <=? dotplace)%Z then
          (int ++ zeros (dotplace - len), [])
        else
          (take (Z.to_nat dotplace) int,
           "."%char :: drop (Z.to_nat dotplace) int) in
      let exp :=
        if (leftdigits =? dotplace)%Z then []
        else "E"%char :: signed_digits_of_Z (leftdigits - dotplace) in
      sign_chars s ++ intpart ++ fracpart ++ exp
  end.

Definition to_string (d : Decimal) : string := text (to_chars d).

(** *** [Decimal(text)]

    The constructor strips surrounding whitespace, drops underscores and
    matches, without regard to letter case, an optional sign followed by
    one of
    - a number: digits with an optional fraction part (a point and
      digits), at least one digit in all, and an optional exponent
      (the letter E, an optional sign, at least one digit);
    - [Inf] or [Infinity];
    - [NaN] or [sNaN] followed by any number of diagnostic digits.
    [None] stands for the [InvalidOperation] (ConversionSyntax) raised
    on any other text. *)

Definition split_sign (l : list ascii) : bool * list ascii :=
  match l with
  | c :: r =>
      if eqc c "-" then (true, r)
      else if eqc c "+" then (false, r)
      else (false, l)
  | [] => (false, [])
  end.

Fixpoint strip_prefix_ci (lit l : list ascii) : option (list ascii) :=
  match lit, l with
  | [], _ => Some l
  | a :: lit', b :: l' =>
      if eqc (lower a) (lower b) then strip_prefix_ci lit' l' else None
  | _ :: _, [] => None
  end.

Definition lookahead (l : list ascii) : bool :=
  match l with
  | c :: r =>
      is_digit c ||
      (eqc c "." && match r with d :: _ => is_digit d | [] => false end)
  | [] => false
  end.

Definition parse_exponent (l : list ascii) : option Z :=
  let '(neg, r) := split_sign l in
  let '(ds, rest) := span is_digit r in
  match ds, rest with
  | _ :: _, [] =>
      Some (if neg then - Z.of_N (int_of_digits ds)
            else Z.of_N (int_of_digits ds))%Z
  | _, _ => None
  end.

Definition parse_fraction (l : list ascii) : list ascii * list ascii :=
  match l with
  | c :: r => if eqc c "." then span is_digit r else ([], l)
  | [] => ([], [])
  end.

Definition parse_number (sign : bool) (l : list ascii) : option Decimal :=
  if lookahead l then
    let '(intpart, r1) := span is_digit l in
    let '(fracpart, r2) := parse_fraction r1 in
    let finite (exp : Z) :=
      Finite sign (int_of_digits (intpart ++ fracpart))
             (exp - Z.of_nat (length fracpart)) in
    match r2 with
    | [] => Some (finite 0%Z)
    | c :: r =>
        if eqc (lower c) "e" then finite <$> parse_exponent r else None
    end
  else None.

Definition parse_infinity (sign : bool) (l : list ascii) : option Decimal :=
  match strip_prefix_ci (chars "inf") l with
  | Some [] => Some (Infinity sign)
  | Some r =>
      match strip_prefix_ci (chars "inity") r with
      | Some [] => Some (Infinity sign)
      | _ => None
      end
  | None => None
  end.

Definition parse_nan (sign : bool) (l : list ascii) : option Decimal :=
  let '(signal, r) :=
    match l with
    | c :: r' => if eqc (lower c) "s" then (true, r') else (false, l)
    | [] => (false, [])
    end in
  match strip_prefix_ci (chars "nan") r with
  | Some r' =>
      let '(diag, rest) := span is_digit r' in
      match rest with
      | [] => Some (NaN sign signal (int_of_digits diag))
      | _ :: _ => None
      end
  | None => None
  end.

Definition of_chars (l : list ascii) : option Decimal :=
  let '(sign, body) := split_sign (remove "_" (strip l)) in
  match parse_number sign body with
  | Some d => Some d
  | None =>
      match parse_infinity sign body with
      | Some d => Some d
      | None => parse_nan sign body
      end
  end.

Definition of_string (s : string) : option Decimal := of_chars (chars s).

(** *** [d.quantize(exp, rounding=r)] *)

Inductive Rounding : Type := ROUND_CEILING | ROUND_HALF_UP.

Definition adjusted (c : N) (e : Z) : Z := (e + ndigits c - 1)%Z.

(** [_fix_nan]: a payload longer than the precision keeps its last
    [prec] digits. *)
Definition fix_nan (s : bool) (p : N) : Decimal :=
  NaN s false (p mod 10 ^ 28)%N.

(** [_rescale]: the coefficient at exponent [ee].  The digits cut off are
    [c mod 10^k]; ROUND_CEILING adds one to a positive coefficient when
    they are not all zero, ROUND_HALF_UP when the first of them is 5 or
    more. *)
Definition rescale (s : bool) (c : N) (e ee : Z) (r : Rounding) : N :=
  if (ee <=? e)%Z then (c * 10 ^ Z.to_N (e - ee))%N
  else
    let k := Z.to_N (ee - e) in
    let q := (c / 10 ^ k)%N in
    let rm := (c mod 10 ^ k)%N in
    match r with
    | ROUND_CEILING => if negb s && negb (rm =? 0)%N then (q + 1)%N else q
    | ROUND_HALF_UP => if (10 ^ k <=? 2 * rm)%N then (q + 1)%N else q
    end.

(** The final [_fix] of the library leaves a result with at most [prec]
    digits and an exponent between Etiny and Emax unchanged and is
    therefore not written out. *)
Definition quantize (self exp : Decimal) (rounding : Rounding)
  : Outcome Decimal :=
  match self, exp with
  | NaN _ true _, _ => Raises InvalidOperation
  | _, NaN _ true _ => Raises InvalidOperation
  | NaN s false p, _ => Returns (fix_nan s p)
  | _, NaN s false p => Returns (fix_nan s p)
  | Infinity s, Infinity _ => Returns (Infinity s)
  | Infinity _, Finite _ _ _ => Raises InvalidOperation
  | Finite _ _ _, Infinity _ => Raises InvalidOperation
  | Finite s c e, Finite _ _ ee =>
      if negb ((Etiny <=? ee) && (ee <=? Emax))%Z then
        Raises InvalidOperation
      else if (c =? 0)%N then Returns (Finite s 0 ee)
      else if (Emax <? adjusted c e)%Z then Raises InvalidOperation
      else if (prec <? adjusted c e - ee + 1)%Z then Raises InvalidOperation
      else
        let c' := rescale s c e ee rounding in
        if (Emax <? adjusted c' ee)%Z then Raises InvalidOperation
        else if (prec <? ndigits c')%Z then Raises InvalidOperation
        else Returns (Finite s c' ee)
  end.

(** *** Order comparison [a <= b]

    [_cmp] compares the numeric values; here both coefficients are
    brought to the smaller of the two exponents.  A comparison that
    involves a NaN raises InvalidOperation. *)

Definition is_nan (d : Decimal) : bool :=
  match d with NaN _ _ _ => true | _ => false end.

Definition isinfinity (d : Decimal) : Z :=
  match d with
  | Infinity true => (-1)%Z
  | Infinity false => 1%Z
  | _ => 0%Z
  end.

Definition scaled (s : bool) (c : N) (e m : Z) : Z :=
  ((if s then -1 else 1) * Z.of_N c * 10 ^ (e - m))%Z.

Definition cmp (a b : Decimal) : comparison :=
  match a, b with
  | Finite s1 c1 e1, Finite s2 c2 e2 =>
      let m := Z.min e1 e2 in
      (scaled s1 c1 e1 m ?= scaled s2 c2 e2 m)%Z
  | _, _ => (isinfinity a ?= isinfinity b)%Z
  end.

Definition le (a b : Decimal) : Outcome bool :=
  if is_nan a || is_nan b then Raises InvalidOperation
  else Returns (match cmp a b with Gt => false | _ => true end).

(** *** [a - b] and [abs(a)]

    An arithmetic result is the exact result brought into the context by
    [_fix]: rounded (ROUND_HALF_EVEN) to at most [prec] digits and to an
    exponent not below Etiny; a result beyond Emax raises Overflow. *)

Definition round_half_even (c : N) (k : N) : N :=
  let q := (c / 10 ^ k)%N in
  let rm := (c mod 10 ^ k)%N in
  if (10 ^ k <? 2 * rm)%N then (q + 1)%N
  else if (10 ^ k =? 2 * rm)%N && N.odd q then (q + 1)%N
  else q.

Definition _fix (d : Decimal) : Outcome Decimal :=
  match d with
  | NaN s _ p => Returns (fix_nan s p)
  | Infinity s => Returns (Infinity s)
  | Finite s c e =>
      if (c =? 0)%N then Returns (Finite s 0 (Z.min (Z.max e Etiny) Emax))
      else
        let Etop := (Emax - prec + 1)%Z in
        let exp_min := (ndigits c + e - prec)%Z in
        if (Etop <? exp_min)%Z then Raises Overflow
        else
          let exp_min := Z.max exp_min Etiny in
          if (e <? exp_min)%Z then
            let c' := round_half_even c (Z.to_N (exp_min - e)) in
            if (prec <? ndigits c')%Z then
              if (Etop <? exp_min + 1)%Z then Raises Overflow
              else Returns (Finite s (c' / 10)%N (exp_min + 1))
            else Returns (Finite s c' exp_min)
          else Returns (Finite s c e)
  end.

Definition sub (a b : Decimal) : Outcome Decimal :=
  match a, b with
  | NaN _ true _, _ => Raises InvalidOperation
  | _, NaN _ true _ => Raises InvalidOperation
  | NaN s false p, _ => Returns (fix_nan s p)
  | _, NaN s false p => Returns (fix_nan s p)
  | Infinity s1, Infinity s2 =>
      if Bool.eqb s1 s2 then Raises InvalidOperation
      else Returns (Infinity s1)
  | Infinity s1, Finite _ _ _ => Returns (Infinity s1)
  | Finite _ _ _, Infinity s2 => Returns (Infinity (negb s2))
  | Finite s1 c1 e1, Finite s2 c2 e2 =>
      let m := Z.min e1 e2 in
      let z := (scaled s1 c1 e1 m - scaled s2 c2 e2 m)%Z in
      let s :=
        if (z =? 0)%Z then (c1 =? 0)%N && (c2 =? 0)%N && s1 && negb s2
        else (z <? 0)%Z in
      _fix (Finite s (Z.abs_N z) m)
  end.

Definition abs (a : Decimal) : Outcome Decimal :=
  match a with
  | NaN _ true _ => Raises InvalidOperation
  | NaN s false p => Returns (fix_nan s p)
  | Infinity _ => Returns (Infinity false)
  | Finite _ c e => _fix (Finite false c e)
  end.

End PyDecimal.

(** ** Python's [json] module

    Modelled from the Python standard library: [json.loads] and
    [json.dumps] with their default arguments, on ASCII texts whose
    numbers are integers and whose strings hold no escape sequence.
    [json.loads] builds a [dict] for an object, which keeps its keys in
    the order of their first occurrence in the text (a repeated key keeps
    its place and takes the later value), and [json.dumps] writes the
    members in that order, separated by [", "] and [": "].  On a text
    beyond this fragment (fraction or exponent parts, [NaN], [Infinity],
    escapes, non-ASCII characters) [loads] answers [Unsupported]; the
    interpreter's recursion limit is not modelled. *)

#[local] Set Warnings "-register-all".

Module PyJson.
Import PyStr.

Inductive json : Type :=
| JNull
| JBool (b : bool)
| JInt (z : Z)
| JString (s : list ascii)
| JArray (items : list json)
| JObject (members : list (list ascii * json)).

Inductive Loaded : Type :=
| Parsed (j : json)
| ValueError
| Unsupported.

(** The result of scanning one syntactic element: the element and the
    rest of the text, a syntax error, or a text outside the fragment. *)
Inductive Scan (A : Type) : Type :=
| Scanned (a : A) (rest : list ascii)
| ScanError
| ScanUnsupported.

Arguments Scanned {A} a rest.
Arguments ScanError {A}.
Arguments ScanUnsupported {A}.

Definition dquote : ascii := "034"%char.
Definition backslash : ascii := "092"%char.

Definition is_ws (c : ascii) : bool :=
  eqc c " " || eqc c "009" || eqc c "010" || eqc c "013".

Definition skip_ws (l : list ascii) : list ascii := lstrip_if is_ws l.

Fixpoint strip_prefix (lit l : list ascii) : option (list ascii) :=
  match lit, l with
  | [], _ => Some l
  | a :: lit', b :: l' => if eqc a b then strip_prefix lit' l' else None
  | _ :: _, [] => None
  end.

(** [dict(pairs)]: a later pair with a known key replaces the value in
    place. *)
Fixpoint dict_set (k : list ascii) (v : json)
  (d : list (list ascii * json)) : list (list ascii * json) :=
  match d with
  | [] => [(k, v)]
  | (k', v') :: d' =>
      if decide (k = k') then (k', v) :: d' else (k', v') :: dict_set k v d'
  end.

Definition dict (pairs : list (list ascii * json))
  : list (list ascii * json) :=
  fold_left (λ d kv, dict_set kv.1 kv.2 d) pairs [].

(** The characters of a string literal after its opening quote. *)
Fixpoint scan_string (l acc : list ascii) : Scan (list ascii) :=
  match l with
  | [] => ScanError
  | c :: r =>
      if eqc c dquote then Scanned (rev acc) r
      else if eqc c backslash then ScanUnsupported
      else if (code c <? 32)%N then ScanError
      else if (128 <=? code c)%N then ScanUnsupported
      else scan_string r (c :: acc)
  end.

(** A number: an optional minus sign, then [0] or a digit string
    without leading zero. *)
Definition float_tail (l : list ascii) : bool :=
  match l with
  | c :: r =>
      if eqc c "." then
        match r with d :: _ => is_digit d | [] => false end
      else if eqc (lower c) "e" then
        match r with
        | d :: r' =>
            is_digit d ||
            ((eqc d "+" || eqc d "-") &&
             match r' with d' :: _ => is_digit d' | [] => false end)
        | [] => false
        end
      else false
  | [] => false
  end.

Definition scan_number (l : list ascii) : Scan json :=
  let '(neg, r) :=
    match l with
    | c :: r' => if eqc c "-" then (true, r') else (false, l)
    | [] => (false, [])
    end in
  let '(ds, rest) :=
    match r with
    | c :: r' => if eqc c "0" then ([c], r') else span is_digit r
    | [] => ([], [])
    end in
  match ds with
  | [] =>
      if neg then
        match strip_prefix (chars "Infinity") r with
        | Some _ => ScanUnsupported
        | None => ScanError
        end
      else ScanError
  | _ :: _ =>
      if float_tail rest then ScanUnsupported
      else
        let n := Z.of_N (int_of_digits ds) in
        Scanned (JInt (if neg then - n else n)%Z) rest
  end.

Definition scan_literal (l : list ascii) : Scan json :=
  match strip_prefix (chars "null") l with
  | Some r => Scanned JNull r
  | None =>
  match strip_prefix (chars "true") l with
  | Some r => Scanned (JBool true) r
  | None =>
  match strip_prefix (chars "false") l with
  | Some r => Scanned (JBool false) r
  | None =>
  match strip_prefix (chars "NaN") l with
  | Some _ => ScanUnsupported
  | None =>
  match strip_prefix (chars "Infinity") l with
  | Some _ => ScanUnsupported
  | None => scan_number l
  end end end end end.

Fixpoint scan_value (fuel : nat) (l : list ascii) : Scan json :=
  match fuel with
  | O => ScanUnsupported
  | S f =>
      match l with
      | [] => ScanError
      | c :: r =>
          if eqc c dquote then
            match scan_string r [] with
            | Scanned s rest => Scanned (JString s) rest
            | ScanError => ScanError
            | ScanUnsupported => ScanUnsupported
            end
          else if eqc c "{" then
            match skip_ws r with
            | c' :: r' =>
                if eqc c' "}" then Scanned (JObject []) r'
                else scan_members f (c' :: r') []
            | [] => ScanError
            end
          else if eqc c "[" then
            match skip_ws r with
            | c' :: r' =>
                if eqc c' "]" then Scanned (JArray []) r'
                else scan_items f (c' :: r') []
            | [] => ScanError
            end
          else scan_literal l
      end
  end
with scan_members (fuel : nat) (l : list ascii)
       (acc : list (list ascii * json)) : Scan json :=
  match fuel with
  | O => ScanUnsupported
  | S f =>
      match l with
      | c :: r =>
          if eqc c dquote then
            match scan_string r [] with
            | Scanned k r1 =>
                match skip_ws r1 with
                | c1 :: r2 =>
                    if eqc c1 ":" then
                      match scan_value f (skip_ws r2) with
                      | Scanned v r3 =>
                          match skip_ws r3 with
                          | c3 :: r4 =>
                              if eqc c3 "}" then
                                Scanned (JObject (dict (rev ((k, v) :: acc)))) r4
                              else if eqc c3 "," then
                                scan_members f (skip_ws r4) ((k, v) :: acc)
                              else ScanError
                          | [] => ScanError
                          end
                      | ScanError => ScanError
                      | ScanUnsupported => ScanUnsupported
                      end
                    else ScanError
                | [] => ScanError
                end
            | ScanError => ScanError
            | ScanUnsupported => ScanUnsupported
            end
          else ScanError
      | [] => ScanError
      end
  end
with scan_items (fuel : nat) (l : list ascii) (acc : list json)
       : Scan json :=
  match fuel with
  | O => ScanUnsupported
  | S f =>
      match scan_value f l with
      | Scanned v r1 =>
          match skip_ws r1 with
          | c :: r2 =>
              if eqc c "]" then Scanned (JArray (rev (v :: acc))) r2
              else if eqc c "," then scan_items f (skip_ws r2) (v :: acc)
              else ScanError
          | [] => ScanError
          end
      | ScanError => ScanError
      | ScanUnsupported => ScanUnsupported
      end
  end.

(** [json.loads(s)]: one value between optional whitespace, and nothing
    after it. *)
Definition loads (s : string) : Loaded :=
  let l := chars s in
  if existsb (λ c, (128 <=? code c)%N) l then Unsupported
  else
    match scan_value (S (length l)) (skip_ws l) with
    | Scanned j rest =>
        match skip_ws rest with
        | [] => Parsed j
        | _ :: _ => ValueError
        end
    | ScanError => ValueError
    | ScanUnsupported => Unsupported
    end.

(** [json.dumps(j)] *)

Definition hex_digit (n : N) : ascii :=
  if (n <? 10)%N then ascii_of_N (48 + n) else ascii_of_N (87 + n).

Definition escape_char (c : ascii) : list ascii :=
  if eqc c dquote then [backslash; dquote]
  else if eqc c backslash then [backslash; backslash]
  else if eqc c "010" then [backslash; "n"%char]
  else if eqc c "013" then [backslash; "r"%char]
  else if eqc c "009" then [backslash; "t"%char]
  else if eqc c "008" then [backslash; "b"%char]
  else if eqc c "012" then [backslash; "f"%char]
  else if ((32 <=? code c) && (code c <=? 126))%N then [c]
  else [backslash; "u"%char; "0"%char; "0"%char;
        hex_digit (code c / 16); hex_digit (code c mod 16)].

Definition encode_string (s : list ascii) : list ascii :=
  dquote :: flat_map escape_char s ++ [dquote].

Fixpoint join (sep : list ascii) (parts : list (list ascii)) : list ascii :=
  match parts with
  | [] => []
  | [x] => x
  | x :: rest => x ++ sep ++ join sep rest
  end.

Fixpoint dumps_chars (j : json) : list ascii :=
  match j with
  | JNull => chars "null"
  | JBool true => chars "true"
  | JBool false => chars "false"
  | JInt z => digits_of_Z z
  | JString s => encode_string s
  | JArray items =>
      "["%char :: join (chars ", ") (List.map dumps_chars items) ++ ["]"%char]
  | JObject members =>
      "{"%char ::
        join (chars ", ")
          (List.map (λ kv, encode_string kv.1 ++ chars ": " ++ dumps_chars kv.2)
             members)
        ++ ["}"%char]
  end.

Definition dumps (j : json) : string := text (dumps_chars j).

(** Test texts are written with apostrophes in place of double quotes. *)
Definition q (s : string) : string :=
  text (List.map (λ c, if eqc c "'" then dquote else c) (chars s)).

End PyJson.

(** ** The flags of [tiltr/data/settings.py] read by the embedded code

    Modelled from the spec: the module that declares [Workarounds] is not
    among the sources; the record lists the flags the embedded functions
    read and the free-form [normalize] transformation applied to texts
    before comparison. *)

Record Workarounds : Type := {
  normalize : string → string;
  inaccurate_percentage_rounding : bool;
  ignore_wrong_results_in_results_tab : bool;
  allow_unreachable_max_scores : bool;
  identical_scoring_ignores_comparator : bool
}.

(** ** [tiltr/data/result.py] *)

Module MaybeDecimal.
Import PyDecimal.

Record t : Type := { _d : option Decimal }.

(** The argument of the constructor: [None], a text, a [Decimal] or
    another [MaybeDecimal]. *)
Inductive Arg : Type :=
| ArgNone
| ArgStr (s : string)
| ArgDecimal (d : Decimal)
| ArgMaybe (m : t).

Definition init (s : Arg) : t :=
  match s with
  | ArgMaybe m => {| _d := _d m |}
  | ArgStr x => {| _d := of_string x |}
  | ArgDecimal d => {| _d := Some d |}
  | ArgNone => {| _d := None |}
  end.

Definition valid (self : t) : bool :=
  match _d self with Some _ => true | None => false end.

Definition to_decimal (self : t) : option Decimal := _d self.

Definition str (self : t) : string :=
  match _d self with
  | None => "not-a-number"
  | Some d => to_string d
  end.

(** The tagged pair [(True, text)] or the one-element tuple [(False,)]. *)
Inductive Encoded : Type :=
| EncTrue (text : string)
| EncFalse.

Definition encode (self : t) : Encoded :=
  match _d self with
  | Some d => EncTrue (to_string d)
  | None => EncFalse
  end.

Definition decode (s : Encoded) : t :=
  match s with
  | EncTrue x => init (ArgStr x)
  | EncFalse => init ArgNone
  end.

End MaybeDecimal.

Module result.
Import PyStr PyDecimal.

(** [_normalize_json]: [json.loads] raises ValueError (JSONDecodeError)
    on a malformed text. *)
Definition _normalize_json (s : string) : Outcome string :=
  match PyJson.loads s with
  | PyJson.Parsed j => Returns (PyJson.dumps j)
  | PyJson.ValueError => Returns ("-illegal-json-" +:+ s)
  | PyJson.Unsupported => Raises OutsideModel
  end.

Inductive Origin : Type := recorded | exported.

Definition Decimal_0_01 : Decimal := Finite false 1 (-2).

Definition _round_to_2_digits (x : MaybeDecimal.Arg) (r : Rounding)
  : Outcome MaybeDecimal.t :=
  let x := MaybeDecimal.init x in
  match MaybeDecimal.to_decimal x with
  | Some d =>
      q ←! quantize d Decimal_0_01 r;
      Returns (MaybeDecimal.init (MaybeDecimal.ArgDecimal q))
  | None => Returns x
  end.

Definition round_up_to_2_digits (x : MaybeDecimal.Arg)
  : Outcome MaybeDecimal.t :=
  _round_to_2_digits x ROUND_CEILING.

Definition format_percentage (p : MaybeDecimal.Arg) (workarounds : Workarounds)
  : Outcome MaybeDecimal.t :=
  _round_to_2_digits p ROUND_HALF_UP.

Definition format_score (score : MaybeDecimal.Arg) : Outcome string :=
  m ←! round_up_to_2_digits score;
  let s := chars (MaybeDecimal.str m) in
  let s :=
    if contains "." s then
      let s := rstrip "0" s in
      if endswith "." s then rstrip "." s else s
    else s in
  Returns (text s).

(** A property key is a tuple of parts; the parts are texts, on which
    [str] is the identity. *)
Definition Key : Type := list string.

(** A stored property value and its rendering by ["%s" % value]. *)
Inductive Value : Type :=
| VStr (s : string)
| VMaybeDecimal (m : MaybeDecimal.t).

Definition percent_s (v : option Value) : string :=
  match v with
  | None => "None"
  | Some (VStr s) => s
  | Some (VMaybeDecimal m) => MaybeDecimal.str m
  end.

Record Result : Type := {
  origin : Origin;
  properties : gmap Key Value;
  types : gmap Key string;
  errors : list (string * string)
}.

Definition empty (o : Origin) : Result :=
  {| origin := o; properties := ∅; types := ∅; errors := [] |}.

(** [add(key, value, value_type)]; an empty [value_type] is falsy. *)
Definition add (self : Result) (key : Key) (value : string)
  (value_type : option string) : Outcome Result :=
  match properties self !! key with
  | Some _ => Raises AssertionError
  | None =>
      Returns {| origin := origin self;
              properties := <[key := VStr value]> (properties self);
              types :=
                match value_type with
                | Some t => if decide (t = "") then types self
                            else <[key := t]> (types self)
                | None => types self
                end;
              errors := errors self |}
  end.

Definition get_normalized_properties (self : Result) : gmap Key Value :=
  properties self.

(** The order of [sorted] on tuples of texts. *)
Fixpoint key_cmp (a b : Key) : comparison :=
  match a, b with
  | [], [] => Eq
  | [], _ :: _ => Lt
  | _ :: _, [] => Gt
  | x :: a', y :: b' =>
      match String.compare x y with
      | Eq => key_cmp a' b'
      | c => c
      end
  end.

Definition key_le (a b : Key) : Prop := key_cmp a b ≠ Gt.

#[global] Instance key_le_dec : RelDecision key_le.
Proof. intros a b. unfold key_le. apply _. Defined.

Definition sorted_keys (p1 p2 : gmap Key Value) : list Key :=
  merge_sort key_le (elements (dom p1 ∪ dom p2)).

Inductive Status : Type := OK | FAIL | IGNORED.

Record Row : Type := {
  row_status : Status;
  row_key : Key;
  row_self : string;
  row_other : string
}.

Inductive ReportLine : Type :=
| RowLine (r : Row)
| ErrorLine (type err : string) (o : Origin).

Definition ignore_key (workarounds : Workarounds) (k : Key) : Outcome bool :=
  match k with
  | [] => Raises IndexError
  | k0 :: _ =>
      Returns (bool_decide (k0 = "results_tab")
            && ignore_wrong_results_in_results_tab workarounds)
  end.

Definition catch_InvalidOperation (m : Outcome bool) : Outcome bool :=
  match m with
  | Raises InvalidOperation => Returns false
  | _ => m
  end.

Definition make_is_close (eps : Decimal) (a b : string) : Outcome bool :=
  let a := MaybeDecimal.init (MaybeDecimal.ArgStr a) in
  let b := MaybeDecimal.init (MaybeDecimal.ArgStr b) in
  match MaybeDecimal.to_decimal a, MaybeDecimal.to_decimal b with
  | Some x, Some y =>
      catch_InvalidOperation (d ←! sub x y; r ←! abs d; le r eps)
  | _, _ => Returns false
  end.

Definition is_exactly_equal (a b : string) : Outcome bool :=
  Returns (bool_decide (a = b)).

Definition comparators (workarounds : Workarounds)
  : gmap Key (string → string → Outcome bool) :=
  if inaccurate_percentage_rounding workarounds then
    <[ ["results_tab"; "percentage_reached"] := make_is_close Decimal_0_01 ]>
      (<[ ["statistics_tab"; "percentage_reached"] := make_is_close Decimal_0_01 ]> ∅)
  else ∅.

(** The declared kinds found for a key, as the tuple built from the set
    of those that are not [None].  The source reads both [type_self] and
    [type_other] from [self.types]. *)
Definition declared_types (self other : Result) (k : Key) : list string :=
  let type_self := types self !! k in
  let type_other := types self !! k in
  remove_dups (omap id [type_self; type_other]).

(** One turn of the loop over the sorted keys. *)
Definition check_key (self other : Result) (workarounds : Workarounds)
  (k : Key) : Outcome Row :=
  let value_self := percent_s (get_normalized_properties self !! k) in
  let value_other := percent_s (get_normalized_properties other !! k) in
  let types := declared_types self other k in
  let value_self := normalize workarounds value_self in
  let value_other := normalize workarounds value_other in
  '(value_self, value_other) ←!
    (if decide (types = ["json"]) then
       a ←! _normalize_json value_self;
       b ←! _normalize_json value_other;
       Returns (a, b)
     else if decide (0 < length types)%nat then
       Raises (RuntimeError "incompatible property data types")
     else Returns (value_self, value_other));
  let is_equal := default is_exactly_equal (comparators workarounds !! k) in
  ignored ←! ignore_key workarounds k;
  status ←!
    (if ignored then Returns IGNORED
     else eq ←! is_equal value_self value_other;
          Returns (if eq then OK else FAIL));
  Returns {| row_status := status; row_key := k;
          row_self := value_self; row_other := value_other |}.

Definition error_lines (r : Result) : list ReportLine :=
  List.map (λ te, ErrorLine te.1 te.2 (origin r)) (errors r).

Definition is_FAIL (s : Status) : bool :=
  match s with FAIL => true | _ => false end.

(** [check_against]: the verdict and the lines handed to [report], the
    table rows first.  The rendering of the rows by Texttable is left
    out. *)
Definition check_against (self other : Result) (workarounds : Workarounds)
  : Outcome (bool * list ReportLine) :=
  let self_properties := get_normalized_properties self in
  let other_properties := get_normalized_properties other in
  let keys := sorted_keys self_properties other_properties in
  rows ←! for_each (check_key self other workarounds) keys;
  let all_ok := forallb (λ r, negb (is_FAIL (row_status r))) rows in
  let all_ok := match errors self with [] => all_ok | _ :: _ => false end in
  let all_ok := match errors other with [] => all_ok | _ :: _ => false end in
  Returns (all_ok,
        List.map RowLine rows ++ error_lines self ++ error_lines other).

(** *** Keys and titles *)

(** An argument of [Result.key]: a text, or a tuple of arguments. *)
Inductive KeyArg : Type :=
| Part (s : string)
| Parts (l : list KeyArg).

Fixpoint _flat (x : KeyArg) : Key :=
  match x with
  | Part s => [s]
  | Parts l => flat_map _flat l
  end.

Definition key (args : list KeyArg) : Key := _flat (Parts args).

(** [re.sub(r'\s+', '', title)]: every run of whitespace is removed. *)
Definition normalize_question_title (title : string) : string :=
  text (List.filter (λ c, negb (is_space c)) (chars title)).

Definition reached_score_keys (question_title : string) : list Key :=
  let normed_title := normalize_question_title question_title in
  List.map (λ channel, [channel; "question"; normed_title; "score_reached"])
    ["xls"; "pdf"].

Definition maximum_score_keys (question_title : string) : list Key :=
  let normed_title := normalize_question_title question_title in
  List.map (λ channel, [channel; "question"; normed_title; "score_maximum"])
    ["pdf"].

(** *** The property store *)

(** [MaybeDecimal(v)] for a stored value. *)
Definition MaybeDecimal_of (v : Value) : MaybeDecimal.t :=
  match v with
  | VStr s => MaybeDecimal.init (MaybeDecimal.ArgStr s)
  | VMaybeDecimal m => MaybeDecimal.init (MaybeDecimal.ArgMaybe m)
  end.

Definition is_reached_score (channel : string) (k : Key) : bool :=
  match k with
  | [k0; k1; _; k3] =>
      bool_decide (k0 = channel) && bool_decide (k1 = "question")
      && bool_decide (k3 = "score_reached")
  | _ => false
  end.

(** [scores(channel)]: the values yielded, in the order in which the
    store enumerates its items. *)
Definition scores (self : Result) (channel : string) : list MaybeDecimal.t :=
  List.map (λ kv, MaybeDecimal_of kv.2)
    (List.filter (λ kv, is_reached_score channel kv.1)
       (map_to_list (properties self))).

Definition update (self : Result) (key : Key) (value : string)
  : Outcome Result :=
  match properties self !! key with
  | None => Raises AssertionError
  | Some _ =>
      Returns {| origin := origin self;
              properties := <[key := VStr value]> (properties self);
              types := types self;
              errors := errors self |}
  end.

Definition remove (self : Result) (key : Key) : Result :=
  {| origin := origin self;
     properties := delete key (properties self);
     types := types self;
     errors := errors self |}.

Definition get (self : Result) (key : Key) : option Value :=
  properties self !! key.

(** [gather(key)]: the loop over the items, on the dictionary
    [answers]. *)
Definition gather (self : Result) (key : Key) : gmap Key Value :=
  map_fold
    (λ k v answers,
       if decide (take (length key) k = key)
       then <[drop (length key) k := v]> answers
       else answers)
    ∅ (properties self).

(** [from_error(origin, domain, err)], [domain] given by its name. *)
Definition from_error (o : Origin) (domain err : string) : Result :=
  {| origin := o; properties := ∅; types := ∅; errors := [(domain, err)] |}.

(** *** Serialisation of the properties

    [to_json] hands [list(self._serialized_properties())] to
    [json.dumps], and the constructor hands the items read by
    [json.loads] to [_deserialized_properties].  A value on this way is
    a text, a truth value, a tuple or a list; the way through JSON is
    modelled from the documentation of [json]: texts and truth values
    come back unchanged, a tuple and a list come back as a list. *)

Inductive PyValue : Type :=
| PStr (s : string)
| PBool (b : bool)
| PTuple (l : list PyValue)
| PList (l : list PyValue).

Fixpoint via_json (v : PyValue) : PyValue :=
  match v with
  | PStr s => PStr s
  | PBool b => PBool b
  | PTuple l => PList (List.map via_json l)
  | PList l => PList (List.map via_json l)
  end.

Definition encoded_value (e : MaybeDecimal.Encoded) : PyValue :=
  match e with
  | MaybeDecimal.EncTrue x => PTuple [PBool true; PStr x]
  | MaybeDecimal.EncFalse => PTuple [PBool false]
  end.

Definition _serialized_properties (self : Result) : list (Key * PyValue) :=
  List.map
    (λ kv,
       match kv.2 with
       | VMaybeDecimal v =>
           (kv.1, PTuple [PStr "MaybeDecimal"; encoded_value (MaybeDecimal.encode v)])
       | VStr v => (kv.1, PStr v)
       end)
    (map_to_list (properties self)).

(** [MaybeDecimal.decode(s)] on a value read back: [s[0]] is a truth
    value and [s[1]], where it is read, a text. *)
Definition decode_value (s : PyValue) : Outcome MaybeDecimal.t :=
  match s with
  | PList [] | PTuple [] => Raises IndexError
  | PList (PBool true :: rest) | PTuple (PBool true :: rest) =>
      match rest with
      | [] => Raises IndexError
      | PStr x :: _ => Returns (MaybeDecimal.decode (MaybeDecimal.EncTrue x))
      | _ :: _ => Raises OutsideModel
      end
  | PList (PBool false :: _) | PTuple (PBool false :: _) =>
      Returns (MaybeDecimal.decode MaybeDecimal.EncFalse)
  | _ => Raises OutsideModel
  end.

(** One turn of the loop of [_deserialized_properties]; a stored value
    that is neither a text nor a [MaybeDecimal] is beyond [Value]. *)
Definition deserialized_value (v : PyValue) : Outcome Value :=
  match v with
  | PList [] => Raises IndexError
  | PList (PStr tag :: rest) =>
      if decide (tag = "MaybeDecimal") then
        match rest with
        | [] => Raises IndexError
        | s :: _ => m ←! decode_value s; Returns (VMaybeDecimal m)
        end
      else Raises OutsideModel
  | PStr s => Returns (VStr s)
  | _ => Raises OutsideModel
  end.

Definition _deserialized_properties (items : list (Key * PyValue))
  : Outcome (gmap Key Value) :=
  fold_left
    (λ acc kv,
       properties ←! acc;
       v ←! deserialized_value kv.2;
       Returns (<[kv.1 := v]> properties))
    items (Returns ∅).

(** The items as the constructor receives them from [to_json]. *)
Definition items_from_json (self : Result) : list (Key * PyValue) :=
  List.map (λ kv, (kv.1, via_json kv.2)) (_serialized_properties self).

End result.

(** ** [tiltr/question/questions/matching.py]

    A score is a [Decimal]; the scoring functions only add, subtract and
    compare scores, and a score is embedded as the rational number it
    denotes (the arithmetic of [decimal] is exact on finite values within
    the context precision).  Definition and term identifiers are texts. *)

Module matching.

Definition Scores : Type := gmap (string * string) Q.

Definition Qsum (l : list Q) : Q := fold_right Qplus 0%Q l.

(** [max(l)] of the values of a non-empty table *)
Definition Qmaximum (x : Q) (l : list Q) : Q := fold_left Qmax l x.

Definition values (scores : Scores) : list Q := (map_to_list scores).*2.


(** *** [scipy.optimize.linear_sum_assignment]

    Modelled from the SciPy documentation: for a cost matrix with [R]
    rows and [C] columns the function returns the row and column indices
    of an assignment of [min R C] entries, no row and no column used
    twice, of minimum total cost, the rows in increasing order.  The
    optimum is found here by exhaustive search, and costs are exact
    rationals instead of float64 numbers. *)

Definition Assignment : Type := list (nat * nat).

Fixpoint matchings (rows cols : list nat) : list Assignment :=
  match rows with
  | [] => [[]]
  | r :: rows' =>
      flat_map
        (λ c, List.map (cons (r, c))
                (matchings rows' (List.filter (λ c', negb (c' =? c)%nat) cols)))
        cols
      ++ matchings rows' cols
  end.

Definition entry (cost : list (list Q)) (rc : nat * nat) : Q :=
  nth rc.2 (nth rc.1 cost []) 0%Q.

Definition total_cost (cost : list (list Q)) (a : Assignment) : Q :=
  Qsum (List.map (entry cost) a).

Fixpoint cheapest (cost : list (list Q)) (best : Assignment)
  (cands : list Assignment) : Assignment :=
  match cands with
  | [] => best
  | a :: cands' =>
      if Qle_bool (total_cost cost best) (total_cost cost a)
      then cheapest cost best cands'
      else cheapest cost a cands'
  end.

Definition shape (cost : list (list Q)) : nat * nat :=
  (length cost, length (hd [] cost)).

Definition complete_assignments (cost : list (list Q)) : list Assignment :=
  let '(R, C) := shape cost in
  List.filter (λ a, (length a =? Nat.min R C)%nat)
    (matchings (seq 0 R) (seq 0 C)).

Definition linear_sum_assignment (cost : list (list Q)) : Assignment :=
  match complete_assignments cost with
  | [] => []
  | a :: cands => cheapest cost a cands
  end.

(** *** [_one_to_one_correct] *)

(** [scores.get((d, t), Decimal(0))], where the row [None] stands for
    "no definition" and is no key of the table. *)
Definition score_of (scores : Scores) (d : option string) (t : string) : Q :=
  match d with
  | Some d' => default 0%Q (scores !! (d', t))
  | None => 0%Q
  end.

(** The rows ([definitions] with the appended [None]), the columns and
    the cost matrix built by [_one_to_one_correct]. *)
Definition cost_rows (scores : Scores) : list (option string) :=
  let definitions : gset string := list_to_set ((map_to_list scores).*1.*1) in
  (Some <$> elements definitions) ++ [None].

Definition cost_columns (scores : Scores) : list string :=
  let terms : gset string := list_to_set ((map_to_list scores).*1.*2) in
  elements terms.

Definition cost_matrix (scores : Scores) (m : Q) : list (list Q) :=
  List.map
    (λ d, List.map (λ t, (m - score_of scores d t)%Q) (cost_columns scores))
    (cost_rows scores).

(** The loop over [zip(row_ind, col_ind)] that adds up [max_score]. *)
Definition assigned_score (scores : Scores) (assignment : Assignment) : Q :=
  let definitions := cost_rows scores in
  let terms := cost_columns scores in
  fold_left
    (λ max_score rc,
       match definitions !! rc.1, terms !! rc.2 with
       | Some d, Some t => (max_score + score_of scores d t)%Q
       | _, _ => max_score
       end)
    assignment 0%Q.

(** [_one_to_one_correct], with the solver of the assignment problem as
    an argument; [max] of an empty table raises ValueError. *)
Definition _one_to_one_correct_with
  (solver : list (list Q) → Assignment) (scores : Scores) : Outcome Q :=
  match values scores with
  | [] => Raises ValueError
  | v :: vs =>
      let m := Qmax 0%Q (Qmaximum v vs) in
      let assignment := solver (cost_matrix scores m) in
      Returns (assigned_score scores assignment)
  end.

Definition _one_to_one_correct (scores : Scores) : Outcome Q :=
  _one_to_one_correct_with linear_sum_assignment scores.



(** *** [_readjust_score] and [MatchingQuestion.compute_score] *)




End matching.

(** ** [testilias/question/questions/cloze.py]

    Scores are embedded as in [matching]; the bounds of a numeric gap are
    [Decimal]s, since candidate texts are parsed and compared with them. *)

Module cloze.
Import PyDecimal.

Module ClozeType.
Inductive t : Type := text | select | numeric.
End ClozeType.

Inductive ClozeComparator : Type := ignore_case | case_sensitive.

(** A [dict] from candidate text to score, in insertion order. *)
Definition Options : Type := list (string * Q).

(** [options.get(text, Decimal(0))] *)
Fixpoint options_get (options : Options) (text : string) : Q :=
  match options with
  | [] => 0%Q
  | (option, score) :: rest =>
      if decide (option = text) then score else options_get rest text
  end.

Record ClozeQuestionTextGap : Type := {
  text_options : Options;
  text_comparator : ClozeComparator
}.

Record ClozeQuestionSelectGap : Type := {
  select_options : Options
}.

Record ClozeQuestionNumericGap : Type := {
  numeric_value : Decimal;
  numeric_lower : Decimal;
  numeric_upper : Decimal;
  score : Q
}.

Inductive Gap : Type :=
| TextGap (g : ClozeQuestionTextGap)
| SelectGap (g : ClozeQuestionSelectGap)
| NumericGap (g : ClozeQuestionNumericGap).

Definition get_type (gap : Gap) : ClozeType.t :=
  match gap with
  | TextGap _ => ClozeType.text
  | SelectGap _ => ClozeType.select
  | NumericGap _ => ClozeType.numeric
  end.

(** [ClozeQuestionTextGap.get_score] *)
Fixpoint first_casefold_match (options : Options) (text : string) : Q :=
  match options with
  | [] => 0%Q
  | (option, score) :: rest =>
      if decide (PyStr.casefold option = PyStr.casefold text) then score
      else first_casefold_match rest text
  end.

Definition text_get_score (self : ClozeQuestionTextGap) (text : string) : Q :=
  match text_comparator self with
  | case_sensitive => options_get (text_options self) text
  | ignore_case => first_casefold_match (text_options self) text
  end.

(** [ClozeQuestionSelectGap.get_score] *)
Definition select_get_score (self : ClozeQuestionSelectGap) (text : string) : Q :=
  options_get (select_options self) text.

(** [ClozeQuestionNumericGap.get_score]: the body of the [try], and the
    handler of InvalidOperation around it. *)
Definition numeric_get_score_try (self : ClozeQuestionNumericGap)
  (text : string) : Outcome Q :=
  value ←! match of_string text with
           | Some d => Returns d
           | None => Raises InvalidOperation
           end;
  above ←! le (numeric_lower self) value;
  if above then
    below ←! le value (numeric_upper self);
    Returns (if below then score self else 0%Q)
  else Returns 0%Q.

Definition numeric_get_score (self : ClozeQuestionNumericGap)
  (text : string) : Outcome Q :=
  match numeric_get_score_try self text with
  | Raises InvalidOperation => Returns 0%Q
  | r => r
  end.

Definition get_score (gap : Gap) (text : string) : Outcome Q :=
  match gap with
  | TextGap g => Returns (text_get_score g text)
  | SelectGap g => Returns (select_get_score g text)
  | NumericGap g => numeric_get_score g text
  end.

Record ClozeQuestion : Type := {
  gaps : gmap nat Gap;
  identical_scoring : bool;
  comparator : ClozeComparator
}.

(** The text under which an answer is remembered in [given_answers]. *)
Definition normalized (self : ClozeQuestion) (workarounds : Workarounds)
  (text : string) : string :=
  if identical_scoring_ignores_comparator workarounds then text
  else
    match comparator self with
    | ignore_case => PyStr.casefold text
    | case_sensitive => text
    end.

(** One turn of the loop of [compute_score_by_indices] on the state
    [(score, given_answers)]. *)
Definition score_answer (self : ClozeQuestion) (workarounds : Workarounds)
  (st : Q * gset string) (answer : nat * string) : Outcome (Q * gset string) :=
  let '(score, given_answers) := st in
  let '(index, text) := answer in
  let add_score (given : gset string) :=
    match gaps self !! index with
    | Some gap =>
        s ←! get_score gap text;
        Returns ((score + s)%Q, given)
    | None => Raises KeyError
    end in
  if identical_scoring self then add_score given_answers
  else
    let normalized := normalized self workarounds text in
    if decide (normalized ∈ given_answers) then Returns (score, given_answers)
    else add_score ({[normalized]} ∪ given_answers).

Fixpoint score_answers (self : ClozeQuestion) (workarounds : Workarounds)
  (st : Q * gset string) (answers : list (nat * string))
  : Outcome (Q * gset string) :=
  match answers with
  | [] => Returns st
  | a :: rest =>
      st' ←! score_answer self workarounds st a;
      score_answers self workarounds st' rest
  end.

(** [answers] is the [dict] from gap index to text, in insertion order. *)
Definition compute_score_by_indices (self : ClozeQuestion)
  (answers : list (nat * string)) (workarounds : Workarounds) : Outcome Q :=
  st ←! score_answers self workarounds (0%Q, ∅) answers;
  Returns st.1.

(** *** [is_valid_answer] and [_get_normalized] *)

Definition text_is_valid_answer (self : ClozeQuestionTextGap)
  (value : string) : bool := true.

Definition select_is_valid_answer (self : ClozeQuestionSelectGap)
  (value : string) : bool :=
  bool_decide (value ∈ (select_options self).*1).

Definition numeric_is_valid_answer (self : ClozeQuestionNumericGap)
  (value : string) : bool :=
  match of_string value with
  | Some _ => true
  | None => false
  end.

Definition is_valid_answer (gap : Gap) (value : string) : bool :=
  match gap with
  | TextGap g => text_is_valid_answer g value
  | SelectGap g => select_is_valid_answer g value
  | NumericGap g => numeric_is_valid_answer g value
  end.

Definition _get_normalized (self : ClozeQuestion) (s : string) : string :=
  match comparator self with
  | case_sensitive => s
  | ignore_case => PyStr.casefold s
  end.

End cloze.

(** ** [tiltr/driver/exam_configuration.py] *)

Module exam_configuration.

Inductive CountSystem : Type := PARTIAL | COMPLETE.
Inductive MCScoring : Type := DO_NOT_SAVE_EMPTY | SAVE_EMPTY.
Inductive ScoreCutting : Type := QUESTION | TEST.
Inductive PassScoring : Type := LAST | BEST.

(** [Enum(value)]: the member of that value, ValueError if there is
    none. *)
Definition CountSystem_of (value : Z) : Outcome CountSystem :=
  match value with
  | 0%Z => Returns PARTIAL
  | 1%Z => Returns COMPLETE
  | _ => Raises ValueError
  end.

Definition MCScoring_of (value : Z) : Outcome MCScoring :=
  match value with
  | 0%Z => Returns DO_NOT_SAVE_EMPTY
  | 1%Z => Returns SAVE_EMPTY
  | _ => Raises ValueError
  end.

Definition ScoreCutting_of (value : Z) : Outcome ScoreCutting :=
  match value with
  | 0%Z => Returns QUESTION
  | 1%Z => Returns TEST
  | _ => Raises ValueError
  end.

Definition PassScoring_of (value : Z) : Outcome PassScoring :=
  match value with
  | 0%Z => Returns LAST
  | 1%Z => Returns BEST
  | _ => Raises ValueError
  end.

Record ExamConfiguration : Type := {
  count_system : option CountSystem;
  mc_scoring : option MCScoring;
  score_cutting : option ScoreCutting;
  pass_scoring : option PassScoring
}.

Definition init : ExamConfiguration :=
  {| count_system := None; mc_scoring := None;
     score_cutting := None; pass_scoring := None |}.

Definition set_count_system (self : ExamConfiguration) (value : Z)
  : Outcome ExamConfiguration :=
  v ←! CountSystem_of value;
  Returns {| count_system := Some v; mc_scoring := mc_scoring self;
          score_cutting := score_cutting self;
          pass_scoring := pass_scoring self |}.

Definition set_mc_scoring (self : ExamConfiguration) (value : Z)
  : Outcome ExamConfiguration :=
  v ←! MCScoring_of value;
  Returns {| count_system := count_system self; mc_scoring := Some v;
          score_cutting := score_cutting self;
          pass_scoring := pass_scoring self |}.

Definition set_score_cutting (self : ExamConfiguration) (value : Z)
  : Outcome ExamConfiguration :=
  v ←! ScoreCutting_of value;
  Returns {| count_system := count_system self; mc_scoring := mc_scoring self;
          score_cutting := Some v;
          pass_scoring := pass_scoring self |}.

Definition set_pass_scoring (self : ExamConfiguration) (value : Z)
  : Outcome ExamConfiguration :=
  v ←! PassScoring_of value;
  Returns {| count_system := count_system self; mc_scoring := mc_scoring self;
          score_cutting := score_cutting self;
          pass_scoring := Some v |}.

(** Scores are embedded as in [matching]. *)
Definition clip_answer_score (self : ExamConfiguration) (score : Q) : Q :=
  match score_cutting self with
  | Some QUESTION => Qmax score 0%Q
  | _ => score
  end.

End exam_configuration.

(** ** [tiltr/http/discovery.py]

    The network is an argument: [post n] is what the [n]-th request to the
    machine meets, and [gethostbyname i t] what the lookup number [t] of
    the host [tiltr_machine_i] meets. *)

Module discovery.

Inductive Reply : Type :=
| ConnectionError
| Response (status_code : Z) (text : string).

Definition said_hello (r : Reply) : bool :=
  match r with
  | Response status_code text =>
      bool_decide (status_code = 200%Z) && bool_decide (text = "HelloToo")
  | ConnectionError => false
  end.

(** [verify_hello]: the loop over [range(retries)], from the request
    number [n] on; the result and the number of requests made. *)
Fixpoint verify_hello_from (post : nat → Reply) (retries n : nat)
  : bool * nat :=
  match retries with
  | O => (false, n)
  | S retries' =>
      if said_hello (post n) then (true, S n)
      else verify_hello_from post retries' (S n)
  end.

Definition verify_hello (post : nat → Reply) : bool * nat :=
  verify_hello_from post 5 0.

(** The loop [for t in range(3)] of [detect_machines]: a lookup that
    fails leaves [ip] as it is. *)
Definition lookup_host (gethostbyname : nat → nat → option string)
  (i : nat) : option string :=
  fold_left
    (λ ip t, match gethostbyname i t with Some a => Some a | None => ip end)
    (seq 0 3) None.

(** [detect_machines]: the loop [while True], bounded by [fuel] turns;
    [None] when the turns do not suffice.  The key ['machine_%d' % i]
    is given by [i]. *)
Fixpoint detect_machines_from (gethostbyname : nat → nat → option string)
  (fuel i : nat) (machines : list (nat * string))
  : option (list (nat * string)) :=
  match fuel with
  | O => None
  | S fuel' =>
      match lookup_host gethostbyname i with
      | None => Some machines
      | Some ip =>
          detect_machines_from gethostbyname fuel' (S i) (machines ++ [(i, ip)])
      end
  end.

Definition detect_machines (gethostbyname : nat → nat → option string)
  (fuel : nat) : option (list (nat * string)) :=
  detect_machines_from gethostbyname fuel 1 [].

End discovery.

(** * Reference definitions and predicates for the statements

    The definitions below are not read off the sources: they name the
    inputs the theorems are stated at, the reference notions the
    specification speaks of, and the predicates the lemmas use. *)

Module examples.
Import PyDecimal PyJson MaybeDecimal result.

Definition plain_workarounds : Workarounds :=
  {| normalize := λ s, s;
     inaccurate_percentage_rounding := false;
     ignore_wrong_results_in_results_tab := false;
     allow_unreachable_max_scores := false;
     identical_scoring_ignores_comparator := false |}.

Definition answer_key : Key := ["question"; "Q1"; "answer"].

(** A result holding one property, of the given kind if any. *)
Definition single (o : Origin) (value : string) (kind : option string) : Result :=
  {| origin := o;
     properties := {[ answer_key := VStr value ]};
     types := match kind with Some t => {[ answer_key := t ]} | None => ∅ end;
     errors := [] |}.

Definition without_properties (o : Origin) : Result := result.empty o.

(** A result with other declared kinds, and with one more property. *)
Definition with_types (r : Result) (t : gmap Key string) : Result :=
  {| origin := origin r; properties := properties r; types := t;
     errors := errors r |}.

Definition with_property (r : Result) (k : Key) (v : Value) : Result :=
  {| origin := origin r; properties := <[k := v]> (properties r);
     types := types r; errors := errors r |}.

End examples.

Module matching_reference.
Import matching.

(** The reference the specification names for the one-to-one maximum:
    the largest total score of a one-to-one assignment of definitions to
    terms in which any definition may stay without a term. *)
Definition assignment_score (scores : Scores) (definitions terms : list string)
  (a : Assignment) : Q :=
  Qsum (List.map
          (λ rc, match definitions !! rc.1, terms !! rc.2 with
                 | Some d, Some t => score_of scores (Some d) t
                 | _, _ => 0%Q
                 end) a).

Definition free_assignment_maximum (scores : Scores) : Q :=
  let definitions :=
    elements (list_to_set ((map_to_list scores).*1.*1) : gset string) in
  let terms :=
    elements (list_to_set ((map_to_list scores).*1.*2) : gset string) in
  Qmaximum 0%Q
    (List.map (assignment_score scores definitions terms)
       (matchings (seq 0 (length definitions)) (seq 0 (length terms)))).

Definition table (l : list (string * string * Q)) : Scores := list_to_map l.

Definition example_table : Scores :=
  table [("d1", "t1", 5%Q); ("d1", "t2", 3%Q); ("d2", "t1", 4%Q); ("d2", "t2", 2%Q)].

Definition all_negative_table : Scores :=
  table [("d", "t1", (-1)%Q); ("d", "t2", (-2)%Q)].



(** What SciPy promises of the solver on a cost matrix: a complete
    assignment of least total cost. *)
Definition optimal_on (cost : list (list Q)) (a : Assignment) : Prop :=
  a ∈ complete_assignments cost
  ∧ ∀ a', a' ∈ complete_assignments cost →
          (total_cost cost a <= total_cost cost a')%Q.

Definition meets_promise (solver : list (list Q) → Assignment) : Prop :=
  ∀ cost, complete_assignments cost ≠ [] → optimal_on cost (solver cost).

End matching_reference.

Module cloze_reference.
Import PyDecimal cloze.

(** Scoring every listed answer on its own gap, one after the other. *)
Fixpoint sum_scores (self : ClozeQuestion) (acc : Q)
  (answers : list (nat * string)) : Outcome Q :=
  match answers with
  | [] => Returns acc
  | (index, text) :: rest =>
      match gaps self !! index with
      | Some gap =>
          s ←! get_score gap text;
          sum_scores self (acc + s)%Q rest
      | None => Raises KeyError
      end
  end.

(** The answers whose normalized text did not occur before them. *)
Fixpoint first_occurrences (norm : string → string) (seen : list string)
  (answers : list (nat * string)) : list (nat * string) :=
  match answers with
  | [] => []
  | (index, text) :: rest =>
      if decide (norm text ∈ seen) then first_occurrences norm seen rest
      else (index, text) :: first_occurrences norm (norm text :: seen) rest
  end.

Definition text_gap_5 : Gap :=
  TextGap {| text_options := [("5", 1%Q)]; text_comparator := case_sensitive |}.

Definition numeric_gap_5 : Gap :=
  NumericGap {| numeric_value := Finite false 5 0;
                numeric_lower := Finite false 5 0;
                numeric_upper := Finite false 5 0;
                score := 2%Q |}.

Definition two_kinds (identical : bool) : ClozeQuestion :=
  {| gaps := {[ 0%nat := text_gap_5; 1%nat := numeric_gap_5 ]};
     identical_scoring := identical;
     comparator := case_sensitive |}.

(** A numeric gap with the range [3, 7]. *)
Definition gap_3_7 : ClozeQuestionNumericGap :=
  {| numeric_value := Finite false 5 0;
     numeric_lower := Finite false 3 0;
     numeric_upper := Finite false 7 0;
     score := 2%Q |}.

End cloze_reference.

Module predicates.
Import PyStr PyDecimal.

(** The value of a digit string read from an accumulator on. *)
Definition value_from (acc : N) (l : list ascii) : N :=
  fold_left (λ acc c, (10 * acc + digit_val c)%N) l acc.

Definition all_digits (l : list ascii) : Prop := Forall (λ c, is_digit c = true) l.

(** A text at which a run of digits ends. *)
Definition stops (rest : list ascii) : Prop :=
  match rest with
  | [] => True
  | c :: _ => is_digit c = false
  end.

Definition plain (c : ascii) : bool := negb (is_space c) && negb (eqc "_" c).

Definition all_plain (l : list ascii) : Prop := Forall (λ c, plain c = true) l.

Definition parse_body (sign : bool) (body : list ascii) : option Decimal :=
  match parse_number sign body with
  | Some d => Some d
  | None =>
      match parse_infinity sign body with
      | Some d => Some d
      | None => parse_nan sign body
      end
  end.

Definition unsigned (body : list ascii) : Prop :=
  match body with
  | c :: _ => eqc c "-" = false ∧ eqc c "+" = false
  | [] => True
  end.

Definition zero_or_point (c : ascii) : bool := eqc "0" c || eqc "." c.


End predicates.

Module comparison_reference.
Import PyDecimal result examples.

(** A text that reads as a finite decimal. *)
Definition is_finite (d : option Decimal) : bool :=
  match d with
  | Some (Finite _ _ _) => true
  | _ => false
  end.

(** The outcomes of a computation on decimals. *)
Definition decimal_outcome {A : Type} (m : Outcome A) : Prop :=
  (∃ a, m = Returns a) ∨ m = Raises InvalidOperation ∨ m = Raises Overflow.

Definition statistics_percentage : Key :=
  ["statistics_tab"; "percentage_reached"].

Definition with_rounding_workaround (w : Workarounds) : Workarounds :=
  {| normalize := normalize w;
     inaccurate_percentage_rounding := true;
     ignore_wrong_results_in_results_tab := ignore_wrong_results_in_results_tab w;
     allow_unreachable_max_scores := allow_unreachable_max_scores w;
     identical_scoring_ignores_comparator := identical_scoring_ignores_comparator w |}.

Definition with_ignored_results_tab (w : Workarounds) : Workarounds :=
  {| normalize := normalize w;
     inaccurate_percentage_rounding := inaccurate_percentage_rounding w;
     ignore_wrong_results_in_results_tab := true;
     allow_unreachable_max_scores := allow_unreachable_max_scores w;
     identical_scoring_ignores_comparator := identical_scoring_ignores_comparator w |}.

(** A result holding one property under the given key. *)
Definition one_property (o : Origin) (k : Key) (value : string) : Result :=
  {| origin := o; properties := {[ k := VStr value ]}; types := ∅;
     errors := [] |}.

End comparison_reference.

Module cloze_answers.
Import PyDecimal cloze cloze_reference.

(** A gap none of whose scores is negative. *)
Definition nonnegative_gap (gap : Gap) : bool :=
  match gap with
  | TextGap g => forallb (λ o, Qle_bool 0 o.2) (text_options g)
  | SelectGap g => forallb (λ o, Qle_bool 0 o.2) (select_options g)
  | NumericGap g => Qle_bool 0 (score g)
  end.

(** The scores a gap declares. *)
Definition gap_scores (gap : Gap) : list Q :=
  match gap with
  | TextGap g => (text_options g).*2
  | SelectGap g => (select_options g).*2
  | NumericGap g => [score g]
  end.


Definition select_gap_yes_no : Gap :=
  SelectGap {| select_options := [("yes", 1%Q); ("no", 0%Q)] |}.

Definition text_gap_paris : ClozeQuestionTextGap :=
  {| text_options := [("paris", 2%Q); ("PARIS", 1%Q)];
     text_comparator := ignore_case |}.

End cloze_answers.

Module matching_bounds.
Import matching.





End matching_bounds.

Module PyStrFacts.
Import PyStr predicates.

Lemma below_10_cases (d : N) :
  (d < 10)%N →
  d ∈ [0; 1; 2; 3; 4; 5; 6; 7; 8; 9]%N.
Proof.
  intros H.
  assert (∃ n : nat, d = N.of_nat n ∧ (n < 10)%nat) as (n & -> & Hn).
  { exists (N.to_nat d). split; lia. }
  do 10 (destruct n as [|n]; [set_solver|]). lia.
Qed.

Ltac digit_cases H :=
  apply below_10_cases in H;
  repeat (apply elem_of_cons in H as [-> | H]; [reflexivity|]);
  apply elem_of_nil in H; destruct H.

Lemma digit_val_chr d : (d < 10)%N → digit_val (digit_chr d) = d.
Proof. intros H. digit_cases H. Qed.

Lemma is_digit_chr d : (d < 10)%N → is_digit (digit_chr d) = true.
Proof. intros H. digit_cases H. Qed.

Lemma value_from_shift l : ∀ acc,
  value_from acc l = (acc * 10 ^ N.of_nat (length l) + value_from 0 l)%N.
Proof.
  induction l as [|c l IH]; intros acc.
  - unfold value_from; simpl. lia.
  - unfold value_from in *. cbn [fold_left length]. rewrite IH.
    rewrite (IH (10 * 0 + digit_val c)%N).
    rewrite Nat2N.inj_succ, N.pow_succ_r'. lia.
Qed.

Lemma int_of_digits_app l1 l2 :
  int_of_digits (l1 ++ l2)
  = (int_of_digits l1 * 10 ^ N.of_nat (length l2) + int_of_digits l2)%N.
Proof.
  unfold int_of_digits. fold (value_from 0 (l1 ++ l2)) (value_from 0 l1) (value_from 0 l2).
  unfold value_from at 1. rewrite fold_left_app.
  fold (value_from 0 l1). fold (value_from (value_from 0 l1) l2).
  apply value_from_shift.
Qed.

Lemma int_of_digits_cons c l :
  int_of_digits (c :: l)
  = (digit_val c * 10 ^ N.of_nat (length l) + int_of_digits l)%N.
Proof.
  change (c :: l) with ([c] ++ l). rewrite int_of_digits_app.
  unfold int_of_digits at 1. simpl. reflexivity.
Qed.

Lemma int_of_digits_zeros k l :
  int_of_digits (zeros k ++ l) = int_of_digits l.
Proof.
  unfold zeros. induction (Z.to_nat k) as [|n IH]; simpl; [reflexivity|].
  rewrite int_of_digits_cons, IH. reflexivity.
Qed.

Lemma all_digits_zeros k : all_digits (zeros k).
Proof.
  unfold zeros. induction (Z.to_nat k); simpl; constructor; done.
Qed.

Lemma size_nat_gt n : (n < 2 ^ N.of_nat (N.size_nat n))%N.
Proof.
  destruct n as [|p]; simpl; [lia|].
  induction p as [p IH|p IH|]; simpl Pos.size_nat.
  - rewrite Nat2N.inj_succ, N.pow_succ_r'. lia.
  - rewrite Nat2N.inj_succ, N.pow_succ_r'. lia.
  - simpl. lia.
Qed.

Lemma digits_aux_S f n acc :
  digits_aux (S f) n acc
  = if (n <? 10)%N then digit_chr n :: acc
    else digits_aux f (n / 10)%N (digit_chr (n mod 10)%N :: acc).
Proof. reflexivity. Qed.

Lemma digits_aux_spec f : ∀ n acc,
  (n < 2 ^ N.of_nat f)%N →
  ∃ ds, digits_aux (S f) n acc = ds ++ acc
        ∧ all_digits ds
        ∧ int_of_digits ds = n
        ∧ (0 < length ds)%nat
        ∧ (n < 10 ^ N.of_nat (length ds))%N
        ∧ (n ≠ 0%N → 10 ^ N.of_nat (length ds - 1) <= n)%N.
Proof.
  induction f as [|f IH]; intros n acc Hn.
  - assert (n = 0%N) as -> by (simpl in Hn; lia).
    exists ["0"%char]. simpl. split_and!; try done; try lia.
    repeat constructor.
  - rewrite digits_aux_S. destruct (N.ltb_spec n 10) as [Hlt|Hge].
    + exists [digit_chr n]. simpl. split_and!; try done; try lia.
      * repeat constructor. by apply is_digit_chr.
      * unfold int_of_digits; simpl. by rewrite digit_val_chr.
    + assert (n / 10 < 2 ^ N.of_nat f)%N as Hdiv.
      { apply N.Div0.div_lt_upper_bound.
        rewrite Nat2N.inj_succ, N.pow_succ_r' in Hn. lia. }
      destruct (IH (n / 10)%N (digit_chr (n mod 10) :: acc) Hdiv)
        as (ds & Heq & Hd & Hv & Hlen & Hup & Hlo).
      assert (n mod 10 < 10)%N as Hm by (apply N.mod_lt; lia).
      pose proof (N.div_mod n 10 ltac:(lia)) as Hdm.
      exists (ds ++ [digit_chr (n mod 10)]).
      rewrite Heq, <- app_assoc. simpl.
      split_and!.
      * done.
      * apply Forall_app. split; [done|]. repeat constructor. by apply is_digit_chr.
      * rewrite int_of_digits_app, Hv. unfold int_of_digits at 1; simpl.
        rewrite digit_val_chr by done. lia.
      * rewrite length_app. simpl. lia.
      * rewrite length_app. simpl.
        replace (N.of_nat (length ds + 1)) with (N.succ (N.of_nat (length ds))) by lia.
        rewrite N.pow_succ_r'. lia.
      * intros _. rewrite length_app. simpl.
        replace (length ds + 1 - 1)%nat with (S (length ds - 1)) by lia.
        rewrite Nat2N.inj_succ, N.pow_succ_r'.
        assert (n / 10 ≠ 0)%N as Hnz.
        { intros H0. rewrite H0 in Hdm. lia. }
        specialize (Hlo Hnz).
        clear -Hlo Hdm Hm.
        set (P := (10 ^ N.of_nat (length ds - 1))%N) in *. clearbody P.
        set (d := (n / 10)%N) in *. set (m := (n mod 10)%N) in *. clearbody d m. lia.
Qed.

Lemma digits_of_N_spec n :
  all_digits (digits_of_N n)
  ∧ int_of_digits (digits_of_N n) = n
  ∧ (0 < length (digits_of_N n))%nat
  ∧ (n < 10 ^ N.of_nat (length (digits_of_N n)))%N
  ∧ (n ≠ 0%N → 10 ^ N.of_nat (length (digits_of_N n) - 1) <= n)%N.
Proof.
  unfold digits_of_N.
  destruct (digits_aux_spec (N.size_nat n) n [] (size_nat_gt n))
    as (ds & Heq & H).
  rewrite Heq, app_nil_r. exact H.
Qed.

Lemma all_digits_of_N n : all_digits (digits_of_N n).
Proof. apply digits_of_N_spec. Qed.

Lemma int_of_digits_of_N n : int_of_digits (digits_of_N n) = n.
Proof. apply digits_of_N_spec. Qed.

Lemma digits_of_N_nonempty n : digits_of_N n ≠ [].
Proof.
  pose proof (digits_of_N_spec n) as (_ & _ & H & _).
  destruct (digits_of_N n); simpl in *; [lia|done].
Qed.





End PyStrFacts.

Module PyDecimalFacts.
Import PyStr PyDecimal predicates PyStrFacts.

(** *** Scanning digit strings *)

Lemma span_digits ds rest :
  all_digits ds → stops rest → span is_digit (ds ++ rest) = (ds, rest).
Proof.
  intros Hds Hrest. induction Hds as [|c ds Hc _ IH]; simpl.
  - destruct rest as [|c r]; [done|]. simpl in *. by rewrite Hrest.
  - by rewrite Hc, IH.
Qed.

Lemma span_digits_all ds : all_digits ds → span is_digit ds = (ds, []).
Proof.
  intros H. rewrite <- (app_nil_r ds) at 1. by apply span_digits.
Qed.

(** *** Texts without whitespace and underscores *)

Lemma lstrip_if_id p l :
  Forall (λ c, p c = false) l → lstrip_if p l = l.
Proof. intros H. destruct H as [|c l Hc _]; simpl; [done|]. by rewrite Hc. Qed.

Lemma rstrip_if_id p l :
  Forall (λ c, p c = false) l → rstrip_if p l = l.
Proof.
  intros H. unfold rstrip_if. rewrite lstrip_if_id.
  - apply rev_involutive.
  - by apply Forall_rev.
Qed.

Lemma remove_id c l :
  Forall (λ x, eqc c x = false) l → remove c l = l.
Proof.
  intros H. unfold remove.
  induction H as [|x l Hx _ IH]; [done|].
  cbn [List.filter]. rewrite Hx. cbn [negb]. by rewrite IH.
Qed.

Lemma plain_clean l : all_plain l → remove "_" (strip l) = l.
Proof.
  intros H. unfold strip.
  assert (Forall (λ c, is_space c = false) l) as Hs.
  { eapply Forall_impl; [exact H|]. intros c Hc. unfold plain in Hc.
    destruct (is_space c); [done|reflexivity]. }
  rewrite (lstrip_if_id _ l Hs), (rstrip_if_id _ l Hs).
  apply remove_id.
  eapply Forall_impl; [exact H|]. intros c Hc. unfold plain in Hc.
  destruct (eqc "_" c); [|done]. by rewrite andb_false_r in Hc.
Qed.

Lemma digit_plain c : is_digit c = true → plain c = true.
Proof.
  destruct c as [[] [] [] [] [] [] [] []]; vm_compute; congruence.
Qed.

Lemma all_digits_plain l : all_digits l → all_plain l.
Proof. intros H. eapply Forall_impl; [exact H|]. apply digit_plain. Qed.

Lemma sign_chars_plain s : all_plain (sign_chars s).
Proof. destruct s; repeat constructor. Qed.

Lemma signed_digits_plain z : all_plain (signed_digits_of_Z z).
Proof.
  unfold signed_digits_of_Z. constructor.
  - by destruct (z <? 0)%Z.
  - apply all_digits_plain, all_digits_of_N.
Qed.

Lemma payload_chars_digits p : all_digits (payload_chars p).
Proof.
  unfold payload_chars. destruct (p =? 0)%N; [constructor|apply all_digits_of_N].
Qed.

Lemma zeros_plain k : all_plain (zeros k).
Proof. apply all_digits_plain, all_digits_zeros. Qed.

Ltac plain_parts :=
  unfold all_plain in *;
  repeat first
    [ assumption
    | apply Forall_nil_2
    | apply Forall_app_2
    | apply Forall_cons_2; [reflexivity|]
    | apply sign_chars_plain
    | apply signed_digits_plain
    | apply zeros_plain
    | apply Forall_take
    | apply Forall_drop ].

Lemma to_chars_plain d : all_plain (to_chars d).
Proof.
  destruct d as [s c e|s|s [] p]; unfold to_chars.
  - pose proof (all_digits_plain _ (all_digits_of_N c)) as Hc.
    cbv zeta.
    set (int := digits_of_N c) in *.
    set (len := Z.of_nat (length int)).
    set (dotplace := if ((e <=? 0)%Z && (-6 <? e + len)%Z) then (e + len)%Z else 1%Z).
    set (exp := if (e + len =? dotplace)%Z then [] else _).
    assert (all_plain exp) as Hexp.
    { unfold exp. destruct (_ =? _)%Z; plain_parts. }
    destruct (dotplace <=? 0)%Z; [|destruct (len <=? dotplace)%Z]; plain_parts.
  - simpl. plain_parts.
  - pose proof (all_digits_plain _ (payload_chars_digits p)). simpl. plain_parts.
  - pose proof (all_digits_plain _ (payload_chars_digits p)). simpl. plain_parts.
Qed.

Ltac zbool :=
  repeat match goal with
  | |- context [(?a <=? ?b)%Z] => destruct (Z.leb_spec a b)
  | |- context [(?a <? ?b)%Z] => destruct (Z.ltb_spec a b)
  end;
  cbn [andb orb negb];
  repeat match goal with
  | |- context [(?a =? ?b)%Z] => destruct (Z.eqb_spec a b)
  end;
  try lia.

(** *** Reading back what [to_chars] writes *)

Lemma of_chars_signed s body :
  all_plain body → unsigned body →
  of_chars (sign_chars s ++ body) = parse_body s body.
Proof.
  intros Hp Hu. unfold of_chars.
  rewrite plain_clean by (apply Forall_app; split; [apply sign_chars_plain|done]).
  destruct s; simpl; [reflexivity|].
  destruct body as [|c r]; simpl; [reflexivity|].
  destruct Hu as [-> ->]. reflexivity.
Qed.

Lemma digit_unsigned c r : is_digit c = true → unsigned (c :: r).
Proof.
  intros H. simpl. unfold eqc.
  split; apply Ascii.eqb_neq; intros ->; vm_compute in H; done.
Qed.

Lemma parse_exponent_signed x :
  parse_exponent (signed_digits_of_Z x) = Some x.
Proof.
  unfold parse_exponent, signed_digits_of_Z.
  pose proof (digits_of_N_nonempty (Z.abs_N x)) as Hne.
  destruct (Z.ltb_spec x 0); simpl;
    rewrite (span_digits_all _ (all_digits_of_N _));
    destruct (digits_of_N (Z.abs_N x)) as [|d ds] eqn:E; try done;
    rewrite <- E, int_of_digits_of_N; f_equal; lia.
Qed.

Lemma parse_number_layout sign ip frac fd exch x :
  all_digits ip → ip ≠ [] → all_digits fd →
  (frac = [] ∧ fd = []) ∨ frac = "."%char :: fd →
  (exch = [] ∧ x = 0%Z) ∨ exch = "E"%char :: signed_digits_of_Z x →
  parse_number sign (ip ++ frac ++ exch)
  = Some (Finite sign (int_of_digits (ip ++ fd)) (x - Z.of_nat (length fd))).
Proof.
  intros Hip Hne Hfd Hfrac Hex.
  assert (stops exch) as Hse.
  { destruct Hex as [[-> _]| ->]; simpl; done. }
  assert (stops (frac ++ exch)) as Hsf.
  { destruct Hfrac as [[-> _]| ->]; simpl; done. }
  unfold parse_number.
  assert (lookahead (ip ++ frac ++ exch) = true) as ->.
  { destruct Hip as [|c ip Hc _]; [done|]. simpl. by rewrite Hc. }
  rewrite (span_digits _ _ Hip Hsf).
  assert (parse_fraction (frac ++ exch) = (fd, exch)) as ->.
  { destruct Hfrac as [[-> ->]| ->].
    - simpl. destruct Hex as [[-> _]| ->]; reflexivity.
    - simpl. by apply span_digits. }
  destruct Hex as [[-> ->]| ->].
  - reflexivity.
  - simpl. rewrite parse_exponent_signed. reflexivity.
Qed.

Lemma of_chars_layout s ip frac fd exch x :
  all_digits ip → ip ≠ [] → all_digits fd →
  (frac = [] ∧ fd = []) ∨ frac = "."%char :: fd →
  (exch = [] ∧ x = 0%Z) ∨ exch = "E"%char :: signed_digits_of_Z x →
  of_chars (sign_chars s ++ ip ++ frac ++ exch)
  = Some (Finite s (int_of_digits (ip ++ fd)) (x - Z.of_nat (length fd))).
Proof.
  intros Hip Hne Hfd Hfrac Hex.
  rewrite of_chars_signed.
  - unfold parse_body. by rewrite (parse_number_layout s ip frac fd exch x).
  - pose proof (all_digits_plain _ Hip). pose proof (all_digits_plain _ Hfd).
    destruct Hfrac as [[-> ->]| ->]; destruct Hex as [[-> ->]| ->]; plain_parts.
  - destruct Hip as [|d ds Hd0 _]; [done|]. by apply digit_unsigned.
Qed.

Lemma of_chars_to_chars_finite s c e :
  of_chars (to_chars (Finite s c e)) = Some (Finite s c e).
Proof.
  unfold to_chars. cbv zeta.
  pose proof (all_digits_of_N c) as Hd.
  pose proof (digits_of_N_nonempty c) as Hne.
  pose proof (int_of_digits_of_N c) as Hv.
  remember (digits_of_N c) as int eqn:Hint.
  remember (Z.of_nat (length int)) as len eqn:Hlen0.
  remember (e + len)%Z as leftdigits eqn:Hleft.
  remember (if ((e <=? 0)%Z && (-6 <? leftdigits)%Z) then leftdigits else 1%Z)
    as dotplace eqn:Hdp0.
  remember (if (leftdigits =? dotplace)%Z then []
            else "E"%char :: signed_digits_of_Z (leftdigits - dotplace))
    as exch eqn:Hex0.
  assert (0 < len)%Z as Hlen.
  { rewrite Hlen0. destruct int; [done|]. simpl. lia. }
  (* the exponent written, if any *)
  remember (if (leftdigits =? dotplace)%Z then 0%Z else (leftdigits - dotplace)%Z)
    as x eqn:Hx0.
  assert ((exch = [] ∧ x = 0%Z) ∨ exch = "E"%char :: signed_digits_of_Z x) as Hex.
  { rewrite Hex0, Hx0. destruct (leftdigits =? dotplace)%Z; [by left|by right]. }
  assert (dotplace = leftdigits ∧ (e <= 0)%Z ∧ x = 0%Z
          ∨ dotplace = 1%Z ∧ x = (leftdigits - 1)%Z) as Hdp.
  { rewrite Hx0, Hdp0. clear. zbool. }
  clear Hx0 Hdp0 Hex0 Hint.
  destruct (Z.leb_spec dotplace 0) as [Hle|Hgt];
    [|destruct (Z.leb_spec len dotplace) as [Hle2|Hgt2]].
  - (* 0.000ddd *)
    etrans.
    { apply (of_chars_layout s ["0"%char] _ (zeros (- dotplace) ++ int) exch x).
      - repeat constructor.
      - done.
      - apply Forall_app; split; [apply all_digits_zeros|done].
      - by right.
      - done. }
    f_equal. f_equal.
    + change (["0"%char] ++ zeros (- dotplace) ++ int)
        with (zeros 1 ++ zeros (- dotplace) ++ int).
      by rewrite !int_of_digits_zeros.
    + rewrite length_app. unfold zeros. rewrite repeat_length. lia.
  - (* ddd with no point *)
    assert (dotplace = len) as Hdl by lia.
    rewrite Hdl, Z.sub_diag. unfold zeros. simpl. rewrite app_nil_r.
    etrans.
    { apply (of_chars_layout s int [] [] exch x); try done; [constructor|by left]. }
    rewrite app_nil_r, Hv. simpl. f_equal. f_equal. lia.
  - (* dd.ddd *)
    etrans.
    { apply (of_chars_layout s (take (Z.to_nat dotplace) int) _
               (drop (Z.to_nat dotplace) int) exch x).
      - by apply Forall_take.
      - destruct int; [done|].
        destruct (Z.to_nat dotplace) eqn:E; [lia|done].
      - by apply Forall_drop.
      - by right.
      - done. }
    rewrite take_drop, Hv. f_equal. f_equal.
    rewrite length_drop. lia.
Qed.

Lemma of_chars_to_chars d : of_chars (to_chars d) = Some d.
Proof.
  destruct d as [s c e|s|s sig p].
  - apply of_chars_to_chars_finite.
  - unfold to_chars. rewrite of_chars_signed; [reflexivity|repeat constructor|done].
  - assert (∀ l, all_digits l →
              parse_body s (chars "NaN" ++ l) = Some (NaN s false (int_of_digits l))
              ∧ parse_body s (chars "sNaN" ++ l) = Some (NaN s true (int_of_digits l)))
      as Hnan.
    { intros l Hl. unfold parse_body, parse_number, parse_infinity, parse_nan.
      simpl. rewrite (span_digits_all _ Hl). done. }
    assert (int_of_digits (payload_chars p) = p) as Hp.
    { unfold payload_chars. destruct (N.eqb_spec p 0) as [->|]; [done|].
      apply int_of_digits_of_N. }
    pose proof (payload_chars_digits p) as Hd.
    destruct (Hnan _ Hd) as [H1 H2]. rewrite Hp in H1, H2.
    destruct sig; unfold to_chars; rewrite of_chars_signed; try done.
    + apply Forall_app; split; [repeat constructor|by apply all_digits_plain].
    + apply Forall_app; split; [repeat constructor|by apply all_digits_plain].
Qed.

Lemma chars_text l : chars (text l) = l.
Proof. apply list_ascii_of_string_of_list_ascii. Qed.

Lemma text_chars s : text (chars s) = s.
Proof. apply string_of_list_ascii_of_string. Qed.

Lemma of_string_to_string d : of_string (to_string d) = Some d.
Proof.
  unfold of_string, to_string. rewrite chars_text. apply of_chars_to_chars.
Qed.

End PyDecimalFacts.

Module RoundingFacts.
Import PyStr PyDecimal predicates PyStrFacts PyDecimalFacts.
Local Open Scope Z_scope.

Lemma pow10_pos k : 0 < 10 ^ k ∨ k < 0.
Proof. destruct (Z.le_gt_cases 0 k); [left; by apply Z.pow_pos_nonneg|by right]. Qed.







Lemma le_refl d : is_nan d = false → le d d = Returns true.
Proof.
  intros H. unfold le. rewrite H. simpl.
  destruct d as [s c e|s|]; [| |done]; unfold cmp; by rewrite Z.compare_refl.
Qed.

End RoundingFacts.

Module StripFacts.
Import PyStr.

Lemma lstrip_if_spec p l :
  ∃ pre, l = pre ++ lstrip_if p l ∧ Forall (λ c, p c = true) pre.
Proof.
  induction l as [|c l (pre & Heq & Hpre)]; simpl.
  - by exists [].
  - destruct (p c) eqn:Hc.
    + exists (c :: pre). split; [by rewrite Heq at 1|by constructor].
    + by exists [].
Qed.

Lemma rstrip_if_spec p l :
  ∃ suf, l = rstrip_if p l ++ suf ∧ Forall (λ c, p c = true) suf.
Proof.
  unfold rstrip_if.
  destruct (lstrip_if_spec p (rev l)) as (pre & Heq & Hpre).
  exists (rev pre). split.
  - rewrite <- rev_app_distr, <- Heq. by rewrite rev_involutive.
  - by apply Forall_rev.
Qed.

End StripFacts.

Module ResultFacts.
Import PyStr PyDecimal predicates PyStrFacts PyDecimalFacts RoundingFacts StripFacts.
Import MaybeDecimal result.

(** C8.  Encoding a [MaybeDecimal] and decoding it again gives the value
    back: for every text the decoded value is the one constructed from
    the text (it is valid exactly when the text is a decimal text, and
    then holds the same decimal), and the invalid state decodes to the
    invalid state.  Constructing from a text is total; a text that is no
    decimal yields the invalid state. *)
Theorem MaybeDecimal_encode_decode :
  (∀ t : string, decode (encode (init (ArgStr t))) = init (ArgStr t))
  ∧ (∀ t : string,
       valid (init (ArgStr t)) = true ↔ ∃ d, of_string t = Some d)
  ∧ (∀ m : MaybeDecimal.t, decode (encode m) = m)
  ∧ decode (encode (init ArgNone)) = init ArgNone
  ∧ valid (decode (encode (init ArgNone))) = false
  ∧ valid (init (ArgStr "12.50")) = true
  ∧ valid (init (ArgStr "twelve")) = false.
Proof.
  assert (∀ m : MaybeDecimal.t, decode (encode m) = m) as Hall.
  { intros [[d|]]; unfold encode, decode, init; simpl; [|done].
    by rewrite of_string_to_string. }
  split_and!; try done.
  intros t. unfold valid, init; simpl.
  destruct (of_string t) as [d|]; split; try done.
  - intros _. by exists d.
  - intros [d Hd]. done.
Qed.




(** C9.  [format_score] of "12.50" is "12.5" and of "12.00" is "12";
    in general the result is the text of the ceiling-rounded score
    without a final run of zeros and points, and nothing is cut off a
    text without a decimal point. *)
Theorem format_score_strips (score : MaybeDecimal.Arg) (m : MaybeDecimal.t) :
  round_up_to_2_digits score = Returns m →
  format_score (ArgStr "12.50") = Returns "12.5"
  ∧ format_score (ArgStr "12.00") = Returns "12"
  ∧ ∃ r cut,
      format_score score = Returns r
      ∧ chars (MaybeDecimal.str m) = chars r ++ cut
      ∧ Forall (λ c, zero_or_point c = true) cut
      ∧ (contains "." (chars (MaybeDecimal.str m)) = false → cut = []).
Proof.
  intros Hm. split; [reflexivity|]. split; [reflexivity|].
  unfold format_score. rewrite Hm. simpl.
  set (s := chars (MaybeDecimal.str m)).
  destruct (contains "." s) eqn:Hdot.
  - destruct (rstrip_if_spec (eqc "0") s) as (z & Hz & Hzs).
    fold (rstrip "0" s) in Hz.
    destruct (endswith "." (rstrip "0" s)).
    + destruct (rstrip_if_spec (eqc ".") (rstrip "0" s)) as (p & Hp & Hps).
      fold (rstrip "." (rstrip "0" s)) in Hp.
      exists (text (rstrip "." (rstrip "0" s))), (p ++ z).
      rewrite chars_text. split_and!; try done.
      * rewrite Hz at 1. rewrite Hp at 1. by rewrite app_assoc.
      * apply Forall_app; split; eapply Forall_impl; try eassumption;
          intros c Hc; unfold zero_or_point; rewrite Hc; by rewrite ?orb_true_r.
    + exists (text (rstrip "0" s)), z.
      rewrite chars_text. split_and!; try done.
      eapply Forall_impl; [exact Hzs|]. intros c Hc. unfold zero_or_point. by rewrite Hc.
  - exists (text s), []. rewrite chars_text, app_nil_r. done.
Qed.

Lemma format_score_strips_witness :
  format_score (ArgStr "12.50") = Returns "12.5"
  ∧ format_score (ArgStr "12.00") = Returns "12"
  ∧ ∃ r cut,
      format_score (ArgStr "7.100") = Returns r
      ∧ chars (MaybeDecimal.str {| _d := Some (Finite false 710 (-2)) |}) = chars r ++ cut
      ∧ Forall (λ c, zero_or_point c = true) cut
      ∧ (contains "." (chars (MaybeDecimal.str {| _d := Some (Finite false 710 (-2)) |})) = false
         → cut = []).
Proof.
  apply (format_score_strips (ArgStr "7.100")). reflexivity.
Defined.

End ResultFacts.

Module ClozeNumericFacts.
Import PyStr PyDecimal predicates PyStrFacts PyDecimalFacts RoundingFacts.
Import cloze cloze_reference.

(** C7.  A numeric gap scores its flat score for a text that parses as
    a decimal between the bounds, both bounds included, and 0 for a text
    that does not parse or lies outside; it never raises.  The texts of
    the two bounds themselves score the flat score. *)
Theorem numeric_gap_get_score (g : ClozeQuestionNumericGap) (text : string) :
  (∀ v, of_string text = Some v →
        le (numeric_lower g) v = Returns true →
        le v (numeric_upper g) = Returns true →
        get_score (NumericGap g) text = Returns (score g))
  ∧ (of_string text = None → get_score (NumericGap g) text = Returns 0%Q)
  ∧ (∀ v, of_string text = Some v →
          le (numeric_lower g) v ≠ Returns true ∨ le v (numeric_upper g) ≠ Returns true →
          get_score (NumericGap g) text = Returns 0%Q)
  ∧ (∃ r, get_score (NumericGap g) text = Returns r ∧ (r = score g ∨ r = 0%Q))
  ∧ (le (numeric_lower g) (numeric_upper g) = Returns true →
     get_score (NumericGap g) (to_string (numeric_lower g)) = Returns (score g)
     ∧ get_score (NumericGap g) (to_string (numeric_upper g)) = Returns (score g)).
Proof.
  unfold get_score, numeric_get_score, numeric_get_score_try.
  split_and!.
  - intros v -> H1 H2. simpl. rewrite H1. simpl. by rewrite H2.
  - intros ->. reflexivity.
  - intros v -> H. simpl. revert H. unfold le.
    destruct (is_nan (numeric_lower g) || is_nan v); simpl; [done|].
    destruct (cmp (numeric_lower g) v); simpl;
      destruct (is_nan v || is_nan (numeric_upper g)); simpl; try done;
      destruct (cmp v (numeric_upper g)); simpl; try done;
      intros [H|H]; by destruct H.
  - destruct (of_string text) as [v|]; simpl; [|eauto].
    unfold le. destruct (is_nan (numeric_lower g) || is_nan v); simpl; [eauto|].
    destruct (cmp (numeric_lower g) v); simpl; eauto;
      destruct (is_nan v || is_nan (numeric_upper g)); simpl; eauto;
      destruct (cmp v (numeric_upper g)); simpl; eauto.
  - intros Hlu.
    assert (is_nan (numeric_lower g) = false ∧ is_nan (numeric_upper g) = false)
      as [Hl Hu].
    { unfold le in Hlu. destruct (is_nan (numeric_lower g)), (is_nan (numeric_upper g)); done. }
    rewrite !of_string_to_string. simpl.
    rewrite (le_refl _ Hl), (le_refl _ Hu), Hlu. done.
Qed.

Lemma numeric_gap_get_score_witness :
  get_score (NumericGap gap_3_7) "3.0" = Returns 2%Q
  ∧ get_score (NumericGap gap_3_7) "7.01" = Returns 0%Q
  ∧ get_score (NumericGap gap_3_7) "3" = Returns 2%Q
  ∧ get_score (NumericGap gap_3_7) "7" = Returns 2%Q.
Proof.
  pose proof (numeric_gap_get_score gap_3_7 "3.0") as (H1 & _).
  pose proof (numeric_gap_get_score gap_3_7 "7.01") as (_ & _ & H3 & _).
  pose proof (numeric_gap_get_score gap_3_7 "") as (_ & _ & _ & _ & H5).
  split_and!.
  - apply (H1 (Finite false 30 (-1))); reflexivity.
  - apply (H3 (Finite false 701 (-2))); [reflexivity|]. right. vm_compute. discriminate.
  - apply H5. reflexivity.
  - apply H5. reflexivity.
Defined.

End ClozeNumericFacts.

Module JsonFacts.
Import PyStr PyJson predicates PyStrFacts PyDecimalFacts.






End JsonFacts.

Module CheckAgainstFacts.
Import PyStr PyDecimal PyJson predicates JsonFacts.
Import MaybeDecimal result.

Lemma declared_types_json self other k :
  types self !! k = Some "json" → declared_types self other k = ["json"].
Proof. intros H. unfold declared_types. rewrite H. reflexivity. Qed.

Lemma declared_types_none self other k :
  types self !! k = None → declared_types self other k = [].
Proof. intros H. unfold declared_types. rewrite H. reflexivity. Qed.

Lemma declared_types_other self other k t :
  types self !! k = Some t → t ≠ "json" → declared_types self other k = [t].
Proof.
  intros H Ht. unfold declared_types. rewrite H. simpl.
  case_decide; [done|]. set_solver.
Qed.



End CheckAgainstFacts.

Module CheckAgainstTheorems.
Import PyStr PyDecimal PyJson JsonFacts CheckAgainstFacts.
Import MaybeDecimal result examples.



(** *** The kinds of the other side are never read *)

Lemma for_each_ext {A B} (f g : A → Outcome B) l :
  (∀ x, f x = g x) → for_each f l = for_each g l.
Proof. intros H. induction l as [|x l IH]; simpl; [done|]. by rewrite H, IH. Qed.

Lemma check_against_ignores_other_types self other t w :
  check_against self (with_types other t) w = check_against self other w.
Proof.
  unfold check_against. simpl.
  rewrite (for_each_ext _ (check_key self other w)); [reflexivity|].
  intros k. reflexivity.
Qed.

(** C2.  [check_against] resolves both kinds from the receiver: with
    json declared by the receiver and another kind by the other side the
    comparison does not abort; it aborts when the receiver declares a
    kind other than json, also when the other side declares the same
    kind; a kind declared only by the other side is never seen. *)
Theorem kind_conflict_reads_receiver_only :
  check_against (single recorded "1" (Some "json"))
                (single exported "1" (Some "text")) plain_workarounds
  = Returns (true,
             [RowLine {| row_status := OK; row_key := answer_key;
                         row_self := "1"; row_other := "1" |}])
  ∧ check_against (single recorded "1" (Some "text"))
                  (single exported "1" (Some "text")) plain_workarounds
    = Raises (RuntimeError "incompatible property data types")
  ∧ check_against (single recorded "1" None)
                  (single exported "1" (Some "text")) plain_workarounds
    = Returns (true,
               [RowLine {| row_status := OK; row_key := answer_key;
                           row_self := "1"; row_other := "1" |}]).
Proof. split_and!; vm_compute; reflexivity. Qed.

(** C10.  A key stored with the text "None" on one side and absent on
    the other gives a row with two equal values, which is OK under the
    exact comparison; the absent property cannot be told from the stored
    text "None": adding it to the other side leaves the whole comparison
    unchanged. *)
Lemma check_key_absent_is_None self other w k k' :
  properties other !! k = None →
  check_key self (with_property other k (VStr "None")) w k'
  = check_key self other w k'.
Proof.
  intros Habs. unfold check_key, get_normalized_properties. simpl.
  destruct (decide (k = k')) as [->|Hne].
  - rewrite lookup_insert_eq, Habs. reflexivity.
  - rewrite lookup_insert_ne by done. reflexivity.
Qed.

Theorem absent_property_compares_as_None self other w k :
  properties self !! k = Some (VStr "None") →
  properties other !! k = None →
  ignore_key w k = Returns false →
  comparators w !! k = None →
  types self !! k = None
  ∨ (types self !! k = Some "json" ∧ loads (normalize w "None") ≠ Unsupported) →
  (∃ v, check_key self other w k
        = Returns {| row_status := OK; row_key := k;
                     row_self := v; row_other := v |})
  ∧ check_against self (with_property other k (VStr "None")) w
    = check_against self other w.
Proof.
  intros Hs Ho Hi Hc Ht. split.
  - unfold check_key, get_normalized_properties.
    rewrite Hs, Ho. simpl.
    destruct Ht as [Ht|[Ht Hl]].
    + rewrite (declared_types_none _ _ _ Ht). simpl. rewrite Hi, Hc. simpl.
      exists (normalize w "None"). by rewrite bool_decide_eq_true_2.
    + rewrite (declared_types_json _ _ _ Ht). simpl.
      unfold _normalize_json.
      destruct (loads (normalize w "None")) as [j| |] eqn:E; [| |done]; simpl;
        rewrite Hi, Hc; simpl; eexists; by rewrite bool_decide_eq_true_2.
  - unfold check_against, get_normalized_properties.
    cbn [properties with_property errors error_lines origin].
    assert (sorted_keys (properties self) (<[k:=VStr "None"]> (properties other))
            = sorted_keys (properties self) (properties other)) as ->.
    { unfold sorted_keys. f_equal. f_equal.
      rewrite dom_insert_L.
      assert (k ∈ dom (properties self)) as Hk by (apply elem_of_dom; eauto).
      clear -Hk. set_solver. }
    rewrite (for_each_ext _ (check_key self other w)); [reflexivity|].
    intros k'. by apply (check_key_absent_is_None self other w k k').
Qed.

Lemma absent_property_compares_as_None_witness :
  (∃ v, check_key (single recorded "None" None) (without_properties exported)
          plain_workarounds answer_key
        = Returns {| row_status := OK; row_key := answer_key;
                     row_self := v; row_other := v |})
  ∧ check_against (single recorded "None" None)
      (with_property (without_properties exported) answer_key (VStr "None"))
      plain_workarounds
    = check_against (single recorded "None" None) (without_properties exported)
        plain_workarounds.
Proof.
  apply absent_property_compares_as_None; try reflexivity. by left.
Defined.

End CheckAgainstTheorems.

Module MatchingFacts.
Import matching matching_reference examples.
Local Open Scope Q_scope.

Lemma Qsum_app l1 l2 : Qsum (l1 ++ l2) == Qsum l1 + Qsum l2.
Proof.
  unfold Qsum. induction l1 as [|x l1 IH]; simpl; [lra|].
  rewrite IH. lra.
Qed.








Lemma free_assignment_maximum_nonneg scores : 0 <= free_assignment_maximum scores.
Proof.
  unfold free_assignment_maximum, Qmaximum.
  generalize (List.map
    (assignment_score scores
       (elements (list_to_set (map_to_list scores).*1.*1 : gset string))
       (elements (list_to_set (map_to_list scores).*1.*2 : gset string)))
    (matchings
       (seq 0 (length (elements (list_to_set (map_to_list scores).*1.*1 : gset string))))
       (seq 0 (length (elements (list_to_set (map_to_list scores).*1.*2 : gset string)))))).
  intros l. assert (∀ x, 0 <= x → 0 <= fold_left Qmax l x) as H.
  { induction l as [|y l IH]; intros x Hx; simpl; [done|].
    apply IH. pose proof (Q.le_max_l x y). lra. }
  apply H. lra.
Qed.

Lemma cheapest_spec cost cands : ∀ best,
  cheapest cost best cands ∈ best :: cands
  ∧ ∀ a', a' ∈ best :: cands →
          total_cost cost (cheapest cost best cands) <= total_cost cost a'.
Proof.
  induction cands as [|a cands IH]; intros best; simpl.
  - split; [apply list_elem_of_here|]. intros a' Ha'.
    apply list_elem_of_singleton in Ha' as ->. lra.
  - destruct (Qle_bool (total_cost cost best) (total_cost cost a)) eqn:E.
    + apply Qle_bool_iff in E. destruct (IH best) as [Hin Hmin]. split.
      * apply elem_of_cons in Hin as [->|Hin];
          [apply list_elem_of_here|by do 2 apply list_elem_of_further].
      * intros a' Ha'. apply elem_of_cons in Ha' as [->|Ha']; [by apply Hmin; left|].
        apply elem_of_cons in Ha' as [->|Ha'].
        -- specialize (Hmin best (list_elem_of_here _ _)). lra.
        -- apply Hmin. by right.
    + assert (total_cost cost a <= total_cost cost best) as Hlt.
      { destruct (Qlt_le_dec (total_cost cost a) (total_cost cost best)) as [H|H];
          [lra|]. apply Qle_bool_iff in H. congruence. }
      destruct (IH a) as [Hin Hmin]. split.
      * by apply list_elem_of_further.
      * intros a' Ha'. apply elem_of_cons in Ha' as [->|Ha'].
        -- specialize (Hmin a (list_elem_of_here _ _)). lra.
        -- apply Hmin. done.
Qed.

(** The exhaustive search meets that promise wherever a complete
    assignment exists. *)
Lemma linear_sum_assignment_optimal cost :
  complete_assignments cost ≠ [] → optimal_on cost (linear_sum_assignment cost).
Proof.
  intros Hne. unfold optimal_on, linear_sum_assignment.
  destruct (complete_assignments cost) as [|a cands]; [done|].
  apply cheapest_spec.
Qed.

Lemma optimal_check cost a :
  optimal_on cost a →
  a ∈ complete_assignments cost
  ∧ forallb (λ a', Qle_bool (total_cost cost a) (total_cost cost a'))
      (complete_assignments cost) = true.
Proof.
  intros [Hin Hmin]. split; [done|].
  apply forallb_forall. intros a' Ha'.
  apply Qle_bool_iff, Hmin. by apply list_elem_of_In.
Qed.

(** On a given table, every solver that keeps the promise leads to the
    same maximum. *)
Ltac one_to_one_by_cases solver Hspec :=
  unfold _one_to_one_correct_with;
  match goal with
  | |- context [values ?T] =>
      let vs := eval vm_compute in (values T) in
      let Hv := fresh "Hv" in
      assert (values T = vs) as Hv by (vm_compute; reflexivity);
      rewrite Hv; clear Hv
  end;
  cbv beta iota zeta;
  match goal with
  | |- context [Qmax ?a ?b] =>
      let m := eval vm_compute in (Qmax a b) in
      let Hm := fresh "Hm" in
      assert (Qmax a b = m) as Hm by (vm_compute; reflexivity);
      rewrite Hm; clear Hm
  end;
  match goal with
  | |- context [solver ?C] =>
      let H := fresh "H" in
      assert (complete_assignments C ≠ []) as H
        by (vm_compute; discriminate);
      destruct (optimal_check C _ (Hspec C H)) as [Hin Hchk];
      clear H;
      generalize dependent (solver C)
  end;
  intros A Hin Hchk;
  match type of Hin with
  | _ ∈ complete_assignments ?C =>
      let l := eval vm_compute in (complete_assignments C) in
      let Hl := fresh "Hl" in
      assert (complete_assignments C = l) as Hl by (vm_compute; reflexivity);
      rewrite Hl in Hin, Hchk; clear Hl
  end;
  repeat (apply elem_of_cons in Hin as [->|Hin]);
  try (by apply elem_of_nil in Hin);
  first [ eexists; split; [reflexivity|vm_compute; reflexivity]
        | exfalso; vm_compute in Hchk; discriminate ].

(** C3.  With any solver that returns a least-cost complete
    assignment, [_one_to_one_correct] gives 7 on the table of the
    specification, as the free assignment maximum does; on a table with
    one definition and two negative pairs it gives -1, where the free
    assignment maximum is 0: the single "no definition" row does not
    free the definition from taking a term. *)
Theorem one_to_one_forced_negative_pair (solver : list (list Q) → Assignment) :
  meets_promise solver →
  (∃ v, _one_to_one_correct_with solver example_table = Returns v ∧ v == 7)
  ∧ free_assignment_maximum example_table == 7
  ∧ (∃ v, _one_to_one_correct_with solver all_negative_table = Returns v
          ∧ v == -1)
  ∧ free_assignment_maximum all_negative_table == 0
  ∧ (∀ scores, 0 <= free_assignment_maximum scores).
Proof.
  intros Hspec. split_and!.
  - one_to_one_by_cases solver Hspec.
  - vm_compute. reflexivity.
  - one_to_one_by_cases solver Hspec.
  - vm_compute. reflexivity.
  - apply free_assignment_maximum_nonneg.
Qed.

Lemma linear_sum_assignment_meets_promise : meets_promise linear_sum_assignment.
Proof. intros cost. apply linear_sum_assignment_optimal. Qed.

Lemma one_to_one_forced_negative_pair_witness :
  (∃ v, _one_to_one_correct example_table = Returns v ∧ v == 7)
  ∧ free_assignment_maximum example_table == 7
  ∧ (∃ v, _one_to_one_correct all_negative_table = Returns v ∧ v == -1)
  ∧ free_assignment_maximum all_negative_table == 0
  ∧ (∀ scores, 0 <= free_assignment_maximum scores).
Proof.
  apply (one_to_one_forced_negative_pair linear_sum_assignment).
  apply linear_sum_assignment_meets_promise.
Defined.

End MatchingFacts.

Module ClozeFacts.
Import PyDecimal cloze cloze_reference examples.

Lemma score_answers_dedup self w answers : ∀ score given seen,
  identical_scoring self = false →
  (∀ x, x ∈ given ↔ x ∈ seen) →
  (st ←! score_answers self w (score, given) answers; Returns st.1)
  = sum_scores self score (first_occurrences (normalized self w) seen answers).
Proof.
  induction answers as [|[index text] rest IH]; intros score given seen Hid Hseen.
  - reflexivity.
  - cbn [score_answers first_occurrences]. unfold score_answer at 1.
    rewrite Hid.
    destruct (decide (normalized self w text ∈ given)) as [Hin|Hnin].
    + rewrite decide_True by (by apply Hseen). cbn [bind].
      by apply IH.
    + rewrite decide_False by (by rewrite <- Hseen).
      cbn [sum_scores].
      destruct (gaps self !! index) as [gap|]; [|reflexivity].
      destruct (get_score gap text) as [s|e]; [|reflexivity].
      cbn [bind]. apply IH; [done|].
      intros x. rewrite elem_of_union, elem_of_singleton, elem_of_cons, Hseen.
      done.
Qed.

Lemma score_answers_independent self w answers : ∀ score given,
  identical_scoring self = true →
  (st ←! score_answers self w (score, given) answers; Returns st.1)
  = sum_scores self score answers.
Proof.
  induction answers as [|[index text] rest IH]; intros score given Hid.
  - reflexivity.
  - cbn [score_answers sum_scores]. unfold score_answer at 1. rewrite Hid.
    destruct (gaps self !! index) as [gap|]; [|reflexivity].
    destruct (get_score gap text) as [s|e]; [|reflexivity].
    cbn [bind]. by apply IH.
Qed.

(** C4 (as amended).  [compute_score_by_indices] adds up the scores of
    the answers one by one; with [identical_scoring] every answer
    counts, without it only the answers whose normalized text did not
    occur earlier in the answer set count, whatever the types of the
    gaps. *)
Theorem compute_score_by_indices_dedup self answers w :
  compute_score_by_indices self answers w
  = sum_scores self 0%Q
      (if identical_scoring self then answers
       else first_occurrences (normalized self w) [] answers).
Proof.
  unfold compute_score_by_indices.
  destruct (identical_scoring self) eqn:Hid.
  - by apply score_answers_independent.
  - apply score_answers_dedup; [done|]. intros x. set_solver.
Qed.

(** C4, counterexample.  A text gap and a numeric gap, both scoring
    the text "5": without [identical_scoring] the second gap, of another
    type, adds nothing (total 1), with it both count (total 3). *)
Lemma repeated_value_across_gap_types :
  get_type text_gap_5 ≠ get_type numeric_gap_5
  ∧ get_score text_gap_5 "5" = Returns 1%Q
  ∧ get_score numeric_gap_5 "5" = Returns 2%Q
  ∧ compute_score_by_indices (two_kinds false) [(0%nat, "5"); (1%nat, "5")]
      plain_workarounds
    = Returns (0 + 1)%Q
  ∧ compute_score_by_indices (two_kinds true) [(0%nat, "5"); (1%nat, "5")]
      plain_workarounds
    = Returns (0 + 1 + 2)%Q.
Proof. split_and!; [done|vm_compute; reflexivity..]. Qed.

End ClozeFacts.

Module ResultStoreFacts.
Import PyStr PyDecimal PyDecimalFacts.
Import result.

Lemma chars_append a b : chars (a +:+ b) = chars a ++ chars b.
Proof. induction a as [|c a IH]; simpl; [done|]. by rewrite IH. Qed.

Lemma text_app l1 l2 : text (l1 ++ l2) = text l1 +:+ text l2.
Proof. induction l1 as [|c l1 IH]; simpl; [done|]. by rewrite IH. Qed.

Lemma filter_filter_same {A} (p : A → bool) (l : list A) :
  List.filter p (List.filter p l) = List.filter p l.
Proof.
  induction l as [|x l IH]; simpl; [done|].
  destruct (p x) eqn:Hp; simpl; [rewrite Hp, IH|]; done.
Qed.

Lemma filter_Forall_true {A} (p : A → bool) (l : list A) :
  Forall (λ x, p x = true) (List.filter p l).
Proof.
  induction l as [|x l IH]; simpl; [constructor|].
  destruct (p x) eqn:Hp; [constructor|]; done.
Qed.

Lemma flat_of_parts (l : list string) : flat_map _flat (Part <$> l) = l.
Proof. induction l as [|x l IH]; simpl; [done|]. f_equal. apply IH. Qed.

(** The key built by [Result.key] is the sequence of the texts among its
    arguments, read from left to right: how the arguments are grouped
    into tuples does not matter, and a key handed to [key] part by part
    comes back unchanged. *)
Theorem key_flattens (a b : list KeyArg) :
  key (a ++ b) = key a ++ key b
  ∧ key [Parts a] = key a
  ∧ key (Parts a :: b) = key (a ++ b)
  ∧ key (Part <$> key a) = key a.
Proof.
  unfold key. simpl. split_and!.
  - apply flat_map_app.
  - apply app_nil_r.
  - symmetry. apply flat_map_app.
  - apply flat_of_parts.
Qed.

(** [normalize_question_title] leaves no whitespace character in the
    title, changes nothing in a title without whitespace (so it is
    idempotent), works piece by piece on a concatenation, and the keys
    of the reached score are the same for a title and its normal
    form. *)
Theorem normalize_question_title_idempotent (title : string) :
  Forall (λ c, is_space c = false) (chars (normalize_question_title title))
  ∧ normalize_question_title (normalize_question_title title)
    = normalize_question_title title
  ∧ (∀ a b, normalize_question_title (a +:+ b)
            = normalize_question_title a +:+ normalize_question_title b)
  ∧ reached_score_keys (normalize_question_title title)
    = reached_score_keys title.
Proof.
  assert (Hidem : ∀ t, normalize_question_title (normalize_question_title t)
                       = normalize_question_title t).
  { intros t. unfold normalize_question_title.
    by rewrite chars_text, filter_filter_same. }
  split_and!.
  - unfold normalize_question_title. rewrite chars_text.
    eapply Forall_impl; [apply filter_Forall_true|].
    intros c Hc. by apply negb_true_iff.
  - apply Hidem.
  - intros a b. unfold normalize_question_title.
    by rewrite chars_append, List.filter_app, text_app.
  - unfold reached_score_keys. by rewrite Hidem.
Qed.

Lemma is_reached_score_spec channel k :
  is_reached_score channel k = true
  ↔ ∃ t, k = [channel; "question"; t; "score_reached"].
Proof.
  split.
  - destruct k as [|k0 [|k1 [|k2 [|k3 [|k4 k]]]]]; simpl; try done.
    rewrite !andb_true_iff, !bool_decide_eq_true.
    intros [[-> ->] ->]. by exists k2.
  - intros [t ->]. simpl. by rewrite !bool_decide_eq_true_2.
Qed.

(** [scores(channel)] yields exactly the stored values, read as
    [MaybeDecimal], of the keys of four parts
    [(channel, "question", title, "score_reached")]: a value stored under
    a key of [reached_score_keys] is yielded for the channel of that key,
    and a key of [maximum_score_keys] is never selected. *)
Theorem scores_selects_reached_scores (self : Result) (channel : string)
  (m : MaybeDecimal.t) :
  (m ∈ scores self channel
   ↔ ∃ t v, properties self !! [channel; "question"; t; "score_reached"] = Some v
            ∧ m = MaybeDecimal_of v)
  ∧ (∀ title k v,
       k ∈ reached_score_keys title → properties self !! k = Some v →
       ∃ c, head k = Some c ∧ MaybeDecimal_of v ∈ scores self c)
  ∧ (∀ title k c, k ∈ maximum_score_keys title → is_reached_score c k = false).
Proof.
  assert (Hspec : ∀ c m',
    m' ∈ scores self c
    ↔ ∃ t v, properties self !! [c; "question"; t; "score_reached"] = Some v
             ∧ m' = MaybeDecimal_of v).
  { intros c m'. unfold scores. rewrite list_elem_of_In, in_map_iff. split.
    - intros ([k v] & <- & Hin). apply filter_In in Hin as [Hin Hsel].
      apply list_elem_of_In, elem_of_map_to_list in Hin.
      apply is_reached_score_spec in Hsel as [t Hk]. simpl in Hk. subst k.
      by exists t, v.
    - intros (t & v & Hl & ->).
      exists ([c; "question"; t; "score_reached"], v). split; [done|].
      apply filter_In. split.
      + by apply list_elem_of_In, elem_of_map_to_list.
      + apply is_reached_score_spec. by exists t. }
  split_and!.
  - apply Hspec.
  - intros title k v Hk Hl. unfold reached_score_keys in Hk. simpl in Hk.
    apply elem_of_cons in Hk as [->|Hk];
      [|apply elem_of_cons in Hk as [->|Hk]; [|by apply elem_of_nil in Hk]].
    + exists "xls". split; [done|]. apply Hspec. eauto.
    + exists "pdf". split; [done|]. apply Hspec. eauto.
  - intros title k c Hk. unfold maximum_score_keys in Hk. simpl in Hk.
    apply list_elem_of_singleton in Hk as ->. simpl.
    by rewrite !andb_false_r.
Qed.

(** [add] and [update] are complementary: on a key that is absent [add]
    stores the value and [update] fails its assertion, on a key that is
    present [update] stores the value and [add] fails its assertion;
    whichever succeeds, [get] then gives the text stored, the other keys
    keep their values, and [update] keeps the declared kinds. *)
Theorem add_update_complementary (self : Result) (k : Key) (value : string)
  (value_type : option string) :
  (properties self !! k = None
   ∧ update self k value = Raises AssertionError
   ∧ ∃ r, add self k value value_type = Returns r
          ∧ get r k = Some (VStr value)
          ∧ ∀ k', k' ≠ k → get r k' = get self k')
  ∨ (is_Some (properties self !! k)
     ∧ add self k value value_type = Raises AssertionError
     ∧ ∃ r, update self k value = Returns r
            ∧ get r k = Some (VStr value)
            ∧ types r = types self
            ∧ ∀ k', k' ≠ k → get r k' = get self k').
Proof.
  unfold add, update, get.
  destruct (properties self !! k) as [v|] eqn:Hk; [right|left].
  - split_and!; [by eexists|done|]. eexists. split_and!; [done|..]; simpl.
    + apply lookup_insert_eq.
    + done.
    + intros k' Hne. by apply lookup_insert_ne.
  - split_and!; [done..|]. eexists. split_and!; [done|..]; simpl.
    + apply lookup_insert_eq.
    + intros k' Hne. by apply lookup_insert_ne.
Qed.

(** [remove] deletes the property and nothing else: the key is absent
    afterwards, the other keys keep their values, removing twice is
    removing once, and the declared kinds stay.  So a property added
    with a kind, removed and added again without a kind is still
    declared with the first kind. *)
Theorem remove_keeps_declared_kind (self : Result) (k : Key)
  (v v' t : string) :
  get (remove self k) k = None
  ∧ (∀ k', k' ≠ k → get (remove self k) k' = get self k')
  ∧ remove (remove self k) k = remove self k
  ∧ types (remove self k) = types self
  ∧ (properties self !! k = None → t ≠ "" →
     ∃ r r', add self k v (Some t) = Returns r
             ∧ add (remove r k) k v' None = Returns r'
             ∧ get r' k = Some (VStr v')
             ∧ types r' !! k = Some t).
Proof.
  unfold get, remove. simpl. split_and!.
  - apply lookup_delete_eq.
  - intros k' Hne. by apply lookup_delete_ne.
  - by rewrite delete_delete_eq.
  - done.
  - intros Hk Ht. unfold add. rewrite Hk. simpl.
    eexists. eexists. split; [done|]. simpl.
    rewrite lookup_delete_eq. split; [done|]. simpl.
    rewrite lookup_insert_eq. split; [done|].
    rewrite decide_False by done. apply lookup_insert_eq.
Qed.

(** [gather(key)] maps the rest of a stored key that starts with [key]
    to the value of that stored key, and holds nothing else; with the
    empty key it is the store itself. *)
Theorem gather_lookup (self : Result) (key s : Key) :
  gather self key !! s = properties self !! (key ++ s)
  ∧ gather self [] = properties self.
Proof.
  assert (Hl : ∀ (key' s' : Key),
    gather self key' !! s' = properties self !! (key' ++ s')).
  { clear key s. intros key. unfold gather.
    apply (map_fold_weak_ind
      (λ (r : gmap Key Value) (m : gmap Key Value),
         ∀ s, r !! s = m !! (key ++ s))).
    - intros s. by rewrite !lookup_empty.
    - intros i x m r Hi IH s.
      destruct (decide (take (length key) i = key)) as [Hp|Hp].
      + assert (Hik : i = key ++ drop (length key) i).
        { rewrite <- Hp at 1. by rewrite take_drop. }
        destruct (decide (drop (length key) i = s)) as [<-|Hne].
        * rewrite lookup_insert_eq, <- Hik. by rewrite lookup_insert_eq.
        * rewrite lookup_insert_ne by done.
          rewrite lookup_insert_ne; [apply IH|].
          intros ->. apply Hne. by rewrite drop_app_length.
      + rewrite lookup_insert_ne; [apply IH|].
        intros ->. apply Hp. by rewrite take_app_length. }
  split; [apply Hl|].
  apply map_eq. intros s0. apply Hl.
Qed.

End ResultStoreFacts.

Module SerialisationFacts.
Import PyStr PyDecimal PyDecimalFacts.
Import MaybeDecimal result.

Lemma decode_encode (m : MaybeDecimal.t) : decode (encode m) = m.
Proof.
  destruct m as [[d|]]; unfold encode, decode, init; simpl; [|done].
  by rewrite of_string_to_string.
Qed.

Lemma deserialized_serialized (v : Value) :
  deserialized_value
    (via_json match v with
              | VMaybeDecimal m =>
                  PTuple [PStr "MaybeDecimal"; encoded_value (encode m)]
              | VStr s => PStr s
              end)
  = Returns v.
Proof.
  destruct v as [s|m]; [done|].
  rewrite <- (decode_encode m) at 2.
  destruct (encode m); reflexivity.
Qed.

Lemma deserialized_fold (l : list (Key * Value)) : ∀ m0 : gmap Key Value,
  NoDup l.*1 →
  fold_left
    (λ acc kv,
       properties ←! acc;
       v ←! deserialized_value kv.2;
       Returns (<[kv.1 := v]> properties))
    (List.map (λ kv : Key * PyValue, (kv.1, via_json kv.2))
       (List.map
          (λ kv : Key * Value,
             match kv.2 with
             | VMaybeDecimal v =>
                 (kv.1, PTuple [PStr "MaybeDecimal"; encoded_value (encode v)])
             | VStr v => (kv.1, PStr v)
             end) l))
    (Returns m0)
  = Returns (list_to_map l ∪ m0).
Proof.
  induction l as [|[k v] l IH]; intros m0 Hnd.
  - simpl. by rewrite (left_id_L ∅ (∪)).
  - apply NoDup_cons in Hnd as [Hk Hnd].
    cbn [List.map fold_left].
    assert (Hv : (let kv := (k, v) in
                  match kv.2 with
                  | VMaybeDecimal v0 =>
                      (kv.1, PTuple [PStr "MaybeDecimal"; encoded_value (encode v0)])
                  | VStr v0 => (kv.1, PStr v0)
                  end)
                 = (k, match v with
                       | VMaybeDecimal m =>
                           PTuple [PStr "MaybeDecimal"; encoded_value (encode m)]
                       | VStr s => PStr s
                       end)) by (by destruct v).
    cbn zeta in Hv. rewrite Hv. cbn [fst snd bind].
    rewrite deserialized_serialized. cbn [bind].
    rewrite IH by done. f_equal. cbn [list_to_map foldr fst snd].
    rewrite <- insert_union_l. symmetry. apply insert_union_r.
    by apply not_elem_of_list_to_map_1.
Qed.

(** The properties survive the way through [to_json] and back: handing
    the serialised items, as [json] returns them, to
    [_deserialized_properties] gives the stored properties again, a
    [MaybeDecimal] with the decimal it held or in the invalid state it
    was in; nothing is raised. *)
Theorem properties_survive_json (self : Result) :
  _deserialized_properties (items_from_json self) = Returns (properties self).
Proof.
  unfold _deserialized_properties, items_from_json, _serialized_properties.
  rewrite deserialized_fold by apply NoDup_fst_map_to_list.
  by rewrite list_to_map_to_list, (right_id_L ∅ (∪)).
Qed.

(** Reading the text of a [MaybeDecimal] gives it back: the text of a
    decimal parses to that decimal, and the text of the invalid state,
    "not-a-number", is no decimal text. *)
Theorem MaybeDecimal_str_reads_back (m : MaybeDecimal.t) :
  init (ArgStr (str m)) = m
  ∧ (valid m = false ↔ str m = "not-a-number").
Proof.
  destruct m as [[d|]]; unfold init, str, valid; simpl.
  - rewrite of_string_to_string. split; [done|]. split; [done|].
    intros H. pose proof (of_string_to_string d) as Hd.
    rewrite H in Hd. vm_compute in Hd. discriminate.
  - split; [|done]. f_equal.
Qed.

End SerialisationFacts.

Module RoundingTwiceFacts.
Import PyStr PyDecimal PyStrFacts.
Import MaybeDecimal result.

Lemma quantize_again d r q :
  quantize d Decimal_0_01 r = Returns q →
  quantize q Decimal_0_01 r = Returns q.
Proof.
  unfold Decimal_0_01.
  destruct d as [s c e|s|s [] p]; simpl; try done.
  - destruct (c =? 0)%N eqn:Hc.
    { intros [= <-]. done. }
    destruct (Emax <? adjusted c e)%Z eqn:H1; [done|].
    destruct (prec <? adjusted c e - -2 + 1)%Z eqn:H2; [done|].
    destruct (Emax <? adjusted (rescale s c e (-2) r) (-2))%Z eqn:H3; [done|].
    destruct (prec <? ndigits (rescale s c e (-2) r))%Z eqn:H4; [done|].
    intros [= <-]. set (c' := rescale s c e (-2) r) in *.
    simpl. destruct (c' =? 0)%N eqn:Hc'.
    { apply N.eqb_eq in Hc'. by rewrite Hc'. }
    rewrite H3.
    assert (Hadj : (adjusted c' (-2) - -2 + 1 = ndigits c')%Z)
      by (unfold adjusted; lia).
    rewrite Hadj, H4.
    assert (Hr : rescale s c' (-2) (-2) r = c').
    { unfold rescale. simpl. lia. }
    rewrite Hr, H3, H4. done.
  - intros [= <-]. unfold fix_nan. simpl. unfold fix_nan. do 2 f_equal.
    apply N.mod_small. by apply N.mod_lt.
Qed.

(** Rounding to two fractional digits is idempotent, whatever the
    rounding mode: what [_round_to_2_digits] returned is returned
    unchanged when it is rounded again; so are the results of
    [round_up_to_2_digits] and of [format_percentage]. *)
Theorem round_to_2_digits_idempotent (x : Arg) (r : Rounding)
  (w : Workarounds) :
  (∀ m, _round_to_2_digits x r = Returns m →
        _round_to_2_digits (ArgMaybe m) r = Returns m)
  ∧ (∀ m, round_up_to_2_digits x = Returns m →
          round_up_to_2_digits (ArgMaybe m) = Returns m)
  ∧ (∀ m, format_percentage x w = Returns m →
          format_percentage (ArgMaybe m) w = Returns m).
Proof.
  assert (H : ∀ r' m, _round_to_2_digits x r' = Returns m →
                      _round_to_2_digits (ArgMaybe m) r' = Returns m).
  { intros r' m. unfold _round_to_2_digits, to_decimal.
    destruct (init x) as [[d|]]; cbn [_d].
    - destruct (quantize d Decimal_0_01 r') as [q|] eqn:Hq; [|done].
      simpl. intros [= <-]. simpl. by rewrite (quantize_again d r' q).
    - by intros [= <-]. }
  split_and!; intros m; apply H.
Qed.

End RoundingTwiceFacts.

Module IsCloseFacts.
Import PyStr PyDecimal PyStrFacts.
Import MaybeDecimal result comparison_reference.

Lemma fix_outcome d : decimal_outcome (_fix d).
Proof.
  unfold decimal_outcome, _fix.
  repeat case_match; eauto.
Qed.

Lemma sub_outcome a b : decimal_outcome (sub a b).
Proof.
  destruct a as [s1 c1 e1|s1|s1 [] p1], b as [s2 c2 e2|s2|s2 [] p2];
    cbn [sub]; try apply fix_outcome; unfold decimal_outcome;
    repeat case_match; eauto.
Qed.

Lemma abs_outcome a : decimal_outcome (abs a).
Proof.
  destruct a as [s c e|s|s [] p]; cbn [abs]; try apply fix_outcome;
    unfold decimal_outcome; eauto.
Qed.

Lemma le_outcome a b : decimal_outcome (le a b).
Proof. unfold decimal_outcome, le. case_match; eauto. Qed.

Lemma is_close_outcome eps a b :
  make_is_close eps a b = Returns true
  ∨ make_is_close eps a b = Returns false
  ∨ make_is_close eps a b = Raises Overflow.
Proof.
  unfold make_is_close, to_decimal. simpl.
  destruct (of_string a) as [x|]; [|by auto].
  destruct (of_string b) as [y|]; [|by auto].
  destruct (sub_outcome x y) as [[d ->]|[->| ->]]; simpl; [|by auto..].
  destruct (abs_outcome d) as [[r ->]|[->| ->]]; simpl; [|by auto..].
  destruct (le_outcome r eps) as [[[] ->]|[->| ->]]; simpl; by auto.
Qed.

Lemma zero_le_eps s e :
  (Etiny <= e)%Z → le (Finite s 0 e) Decimal_0_01 = Returns true.
Proof.
  intros He. unfold le, Decimal_0_01, cmp, scaled. simpl.
  rewrite Z.mul_0_r, Z.mul_0_l.
  assert (H : (0 < 10 ^ (-2 - Z.min e (-2)))%Z)
    by (apply Z.pow_pos_nonneg; lia).
  destruct (10 ^ (-2 - Z.min e (-2)))%Z eqn:Hp; try lia. done.
Qed.

Lemma is_close_same_finite s c e :
  catch_InvalidOperation
    (d ←! sub (Finite s c e) (Finite s c e); r ←! abs d; le r Decimal_0_01)
  = Returns true.
Proof.
  cbn [sub]. rewrite Z.min_id, Z.sub_diag. cbn [Z.eqb Z.abs_N].
  set (s' := ((c =? 0)%N && (c =? 0)%N && s && negb s)).
  cbn [_fix N.eqb bind abs].
  set (e' := Z.min (Z.max e Etiny) Emax).
  cbn [_fix N.eqb bind].
  rewrite zero_le_eps; [done|].
  unfold e', Etiny, Emax, Emin, prec. lia.
Qed.

(** [is_close], the comparison of two percentages within 0.01, returns
    a truth value or raises Overflow, never InvalidOperation; a text
    that is no decimal on either side gives false; a text compared with
    itself is close exactly when it reads as a finite decimal; and the
    difference of two decimals beyond the exponent range raises Overflow,
    which [is_close] does not catch. *)
Theorem is_close_outcomes (a b : string) :
  (make_is_close Decimal_0_01 a b = Returns true
   ∨ make_is_close Decimal_0_01 a b = Returns false
   ∨ make_is_close Decimal_0_01 a b = Raises Overflow)
  ∧ (of_string a = None ∨ of_string b = None →
     make_is_close Decimal_0_01 a b = Returns false)
  ∧ make_is_close Decimal_0_01 a a = Returns (is_finite (of_string a))
  ∧ make_is_close Decimal_0_01 "9E+999999" "-9E+999999" = Raises Overflow.
Proof.
  split_and!.
  - apply is_close_outcome.
  - unfold make_is_close, to_decimal. simpl.
    intros [-> | ->]; [done|]. by destruct (of_string a).
  - unfold make_is_close, to_decimal. simpl.
    destruct (of_string a) as [[s c e|s|s [] p]|]; simpl.
    + apply is_close_same_finite.
    + by rewrite eqb_reflx.
    + done.
    + done.
    + done.
  - vm_compute. reflexivity.
Qed.

End IsCloseFacts.

Module CheckAgainstReportFacts.
Import PyStr PyDecimal.
Import MaybeDecimal result examples comparison_reference CheckAgainstFacts.

Lemma check_against_returns self other w ok lines :
  check_against self other w = Returns (ok, lines) →
  ∃ rows,
    for_each (check_key self other w)
      (sorted_keys (properties self) (properties other)) = Returns rows
    ∧ ok = match errors other with
           | [] => match errors self with
                   | [] => forallb (λ r, negb (is_FAIL (row_status r))) rows
                   | _ :: _ => false
                   end
           | _ :: _ => false
           end
    ∧ lines = List.map RowLine rows ++ error_lines self ++ error_lines other.
Proof.
  unfold check_against, get_normalized_properties.
  destruct (for_each _ _) as [rows|]; [|done].
  simpl. intros [= <- <-]. by exists rows.
Qed.

Lemma RowLine_in_lines r rows (self other : Result) :
  RowLine r ∈ List.map RowLine rows ++ error_lines self ++ error_lines other
  ↔ r ∈ rows.
Proof.
  rewrite !elem_of_app. unfold error_lines.
  rewrite !list_elem_of_In, !in_map_iff. split.
  - intros [(r' & [= ->] & Hin)|[(x & Hx & _)|(x & Hx & _)]]; done.
  - intros Hin. left. by exists r.
Qed.

Lemma forallb_not_FAIL rows :
  forallb (λ r, negb (is_FAIL (row_status r))) rows = true
  ↔ ∀ r, r ∈ rows → row_status r ≠ FAIL.
Proof.
  rewrite forallb_forall. split.
  - intros H r Hin Hf. apply list_elem_of_In, H in Hin.
    rewrite Hf in Hin. done.
  - intros H r Hin. apply list_elem_of_In, H in Hin.
    by destruct (row_status r).
Qed.

(** The verdict of [check_against] is true exactly when neither result
    carries an error and no row of the report is FAIL; every error of
    either result is reported with the origin of its result. *)
Theorem check_against_verdict self other w ok lines :
  check_against self other w = Returns (ok, lines) →
  (ok = true
   ↔ errors self = [] ∧ errors other = []
     ∧ ∀ r, RowLine r ∈ lines → row_status r ≠ FAIL)
  ∧ (∀ t e, (t, e) ∈ errors self → ErrorLine t e (origin self) ∈ lines)
  ∧ (∀ t e, (t, e) ∈ errors other → ErrorLine t e (origin other) ∈ lines).
Proof.
  intros (rows & _ & -> & ->)%check_against_returns. split_and!.
  - setoid_rewrite RowLine_in_lines. rewrite <- forallb_not_FAIL.
    destruct (errors self), (errors other); split;
      first [ by intros (? & ? & ?) | by intros ? ].
  - intros t e Hin. rewrite !elem_of_app. right. left.
    unfold error_lines. apply list_elem_of_In, in_map_iff.
    exists (t, e). split; [done|]. by apply list_elem_of_In.
  - intros t e Hin. rewrite !elem_of_app. right. right.
    unfold error_lines. apply list_elem_of_In, in_map_iff.
    exists (t, e). split; [done|]. by apply list_elem_of_In.
Qed.

Lemma check_against_verdict_witness :
  (true = true
   ↔ errors (single recorded "1" None) = []
     ∧ errors (single exported "1" None) = []
     ∧ ∀ r, RowLine r ∈ [RowLine {| row_status := OK; row_key := answer_key;
                                     row_self := "1"; row_other := "1" |}] →
            row_status r ≠ FAIL)
  ∧ (∀ t e, (t, e) ∈ errors (single recorded "1" None) →
            ErrorLine t e recorded
            ∈ [RowLine {| row_status := OK; row_key := answer_key;
                          row_self := "1"; row_other := "1" |}])
  ∧ (∀ t e, (t, e) ∈ errors (single exported "1" None) →
            ErrorLine t e exported
            ∈ [RowLine {| row_status := OK; row_key := answer_key;
                          row_self := "1"; row_other := "1" |}]).
Proof.
  apply (check_against_verdict (single recorded "1" None)
           (single exported "1" None) plain_workarounds).
  vm_compute. reflexivity.
Defined.

(** A result built by [from_error] never passes: whichever side of
    [check_against] it stands on, a comparison that returns has the
    verdict false and reports the error. *)
Theorem from_error_never_passes o domain err other w ok lines :
  check_against (from_error o domain err) other w = Returns (ok, lines)
  ∨ check_against other (from_error o domain err) w = Returns (ok, lines) →
  ok = false ∧ ErrorLine domain err o ∈ lines.
Proof.
  intros [(rows & _ & -> & ->)%check_against_returns
         |(rows & _ & -> & ->)%check_against_returns].
  - split; [by destruct (errors other)|].
    apply elem_of_app. right. apply elem_of_app. left.
    apply list_elem_of_here.
  - split; [done|].
    apply elem_of_app. right. apply elem_of_app. right.
    apply list_elem_of_here.
Qed.

Lemma from_error_never_passes_witness :
  false = false
  ∧ ErrorLine "login" "timeout" recorded
    ∈ [RowLine {| row_status := FAIL; row_key := answer_key;
                  row_self := "None"; row_other := "1" |};
       ErrorLine "login" "timeout" recorded].
Proof.
  apply (from_error_never_passes recorded "login" "timeout"
           (single exported "1" None) plain_workarounds).
  left. vm_compute. reflexivity.
Defined.

(** *** The rows of the report *)

Lemma key_cmp_antisym a : ∀ b, key_cmp a b = CompOpp (key_cmp b a).
Proof.
  induction a as [|x a IH]; intros [|y b]; simpl; try done.
  rewrite (String.compare_antisym x y).
  destruct (String.compare y x); simpl; [apply IH|done..].
Qed.

Lemma key_le_total : Total key_le.
Proof.
  intros a b. unfold key_le. rewrite (key_cmp_antisym b a).
  destruct (key_cmp a b); simpl; auto.
Qed.

Lemma check_key_row_key self other w k r :
  check_key self other w k = Returns r → row_key r = k.
Proof.
  unfold check_key.
  destruct (if decide (declared_types self other k = ["json"]) then _ else _)
    as [[a b]|]; [|done].
  cbn [bind]. destruct (ignore_key w k) as [ig|]; [|done]. cbn [bind].
  destruct (if ig then _ else _) as [st|]; [|done]. cbn [bind].
  by intros [= <-].
Qed.

Lemma for_each_row_keys self other w keys : ∀ rows,
  for_each (check_key self other w) keys = Returns rows →
  row_key <$> rows = keys.
Proof.
  induction keys as [|k keys IH]; intros rows; simpl.
  - by intros [= <-].
  - destruct (check_key self other w k) as [r|] eqn:Hr; [|done]. simpl.
    destruct (for_each _ keys) as [rs|]; [|done]. simpl.
    intros [= <-]. simpl. f_equal; [by eapply check_key_row_key|by apply IH].
Qed.

Lemma sorted_keys_elem (p1 p2 : gmap Key Value) k :
  k ∈ sorted_keys p1 p2 ↔ is_Some (p1 !! k) ∨ is_Some (p2 !! k).
Proof.
  unfold sorted_keys. rewrite merge_sort_Permutation, elem_of_elements,
    elem_of_union, !elem_of_dom. done.
Qed.

(** The report of [check_against] holds one row for every key stored in
    either result and no other row, the rows in the order of the keys;
    the lines of the errors follow the rows. *)
Theorem check_against_rows_sorted self other w ok lines :
  check_against self other w = Returns (ok, lines) →
  ∃ rows,
    lines = List.map RowLine rows ++ error_lines self ++ error_lines other
    ∧ Sorted key_le (row_key <$> rows)
    ∧ NoDup (row_key <$> rows)
    ∧ ∀ k, k ∈ row_key <$> rows
           ↔ is_Some (properties self !! k) ∨ is_Some (properties other !! k).
Proof.
  intros (rows & Hrows & _ & ->)%check_against_returns.
  exists rows. apply for_each_row_keys in Hrows. rewrite Hrows.
  split_and!.
  - done.
  - unfold sorted_keys.
    apply (@Sorted_merge_sort _ key_le _ key_le_total).
  - unfold sorted_keys. rewrite merge_sort_Permutation. apply NoDup_elements.
  - apply sorted_keys_elem.
Qed.

Lemma check_against_rows_sorted_witness :
  ∃ rows,
    [RowLine {| row_status := OK; row_key := answer_key;
                row_self := "1"; row_other := "1" |}]
    = List.map RowLine rows ++ error_lines (single recorded "1" None)
      ++ error_lines (single exported "1" None)
    ∧ Sorted key_le (row_key <$> rows)
    ∧ NoDup (row_key <$> rows)
    ∧ ∀ k, k ∈ row_key <$> rows
           ↔ is_Some (properties (single recorded "1" None) !! k)
             ∨ is_Some (properties (single exported "1" None) !! k).
Proof.
  apply (check_against_rows_sorted (single recorded "1" None)
           (single exported "1" None) plain_workarounds true).
  vm_compute. reflexivity.
Defined.

(** *** A result compared with itself *)

Lemma for_each_Forall {A B} (f : A → Outcome B) (P : B → Prop) (l : list A) :
  (∀ x, x ∈ l → ∃ y, f x = Returns y ∧ P y) →
  ∃ ys, for_each f l = Returns ys ∧ Forall P ys.
Proof.
  induction l as [|x l IH]; intros H; simpl.
  - by exists [].
  - destruct (H x) as (y & -> & Hy); [apply list_elem_of_here|].
    destruct IH as (ys & -> & Hys).
    { intros x' Hx'. apply H. by apply list_elem_of_further. }
    simpl. exists (y :: ys). split; [done|]. by constructor.
Qed.

Lemma check_key_same self w k :
  types self = ∅ → inaccurate_percentage_rounding w = false → k ≠ [] →
  ∃ r, check_key self self w k = Returns r
       ∧ row_status r ≠ FAIL ∧ row_self r = row_other r.
Proof.
  intros Ht Hw Hk. unfold check_key, declared_types, comparators.
  rewrite Ht, Hw, !lookup_empty. cbn [omap id remove_dups mbind].
  rewrite decide_False by done. simpl.
  destruct k as [|k0 k]; [done|]. simpl.
  destruct (bool_decide (k0 = "results_tab")
            && ignore_wrong_results_in_results_tab w); simpl.
  - eexists. split; [done|]. done.
  - rewrite bool_decide_eq_true_2 by done. eexists. split; [done|]. done.
Qed.

(** A result without declared kinds and without a property under the
    empty key, compared with itself while percentages are compared
    exactly, gives a report without a FAIL row, the two values of every
    row equal, and the verdict is true exactly when the result carries
    no error. *)
Theorem check_against_reflexive self w :
  types self = ∅ →
  inaccurate_percentage_rounding w = false →
  properties self !! [] = None →
  ∃ rows,
    check_against self self w
    = Returns (bool_decide (errors self = []),
               List.map RowLine rows ++ error_lines self ++ error_lines self)
    ∧ Forall (λ r, row_status r ≠ FAIL ∧ row_self r = row_other r) rows.
Proof.
  intros Ht Hw He. unfold check_against, get_normalized_properties.
  destruct (for_each_Forall (check_key self self w)
              (λ r, row_status r ≠ FAIL ∧ row_self r = row_other r)
              (sorted_keys (properties self) (properties self)))
    as (rows & -> & Hrows).
  { intros k Hk. apply check_key_same; [done..|].
    apply sorted_keys_elem in Hk. intros ->.
    destruct Hk as [[v Hv]|[v Hv]];
      (assert (Some v = None) by (rewrite <- Hv; exact He)); done. }
  exists rows. split; [|done]. simpl. do 2 f_equal.
  assert (Hall : forallb (λ r, negb (is_FAIL (row_status r))) rows = true).
  { apply forallb_not_FAIL. intros r Hr.
    rewrite Forall_forall in Hrows. by apply Hrows. }
  rewrite Hall. by destruct (errors self).
Qed.

Lemma check_against_reflexive_witness :
  ∃ rows,
    check_against (single recorded "1" None) (single recorded "1" None)
      plain_workarounds
    = Returns (bool_decide (errors (single recorded "1" None) = []),
               List.map RowLine rows ++ error_lines (single recorded "1" None)
               ++ error_lines (single recorded "1" None))
    ∧ Forall (λ r, row_status r ≠ FAIL ∧ row_self r = row_other r) rows.
Proof.
  apply (check_against_reflexive (single recorded "1" None) plain_workarounds).
  - reflexivity.
  - reflexivity.
  - vm_compute. reflexivity.
Defined.

(** With the workaround for inaccurately rounded percentages the row of
    the reached percentage of the statistics tab is OK, for a result
    compared with itself, exactly when the value reads as a finite
    decimal: any other text, equal on both sides, gives FAIL. *)
Theorem percentage_row_needs_finite_decimal self w :
  inaccurate_percentage_rounding w = true →
  types self !! statistics_percentage = None →
  check_key self self w statistics_percentage
  = Returns
      (let v := normalize w (percent_s (properties self !! statistics_percentage)) in
       {| row_status := if is_finite (of_string v) then OK else FAIL;
          row_key := statistics_percentage;
          row_self := v; row_other := v |}).
Proof.
  intros Hw Ht. unfold check_key, declared_types, comparators,
    get_normalized_properties.
  rewrite Ht, Hw. cbn [omap id remove_dups mbind].
  rewrite decide_False by done. simpl.
  set (v := normalize w (percent_s (properties self !! statistics_percentage))).
  unfold statistics_percentage at 1.
  rewrite lookup_insert_ne by done. rewrite lookup_insert_eq. simpl.
  pose proof (IsCloseFacts.is_close_outcome Decimal_0_01 v v) as Ho.
  assert (Hc : make_is_close Decimal_0_01 v v = Returns (is_finite (of_string v))).
  { unfold make_is_close, to_decimal. simpl.
    destruct (of_string v) as [[s c e|s|s [] p]|]; simpl;
      [apply IsCloseFacts.is_close_same_finite|by rewrite eqb_reflx|done..]. }
  rewrite Hc. simpl. by destruct (is_finite (of_string v)).
Qed.

Lemma percentage_row_needs_finite_decimal_witness :
  check_key (one_property recorded statistics_percentage "n/a")
    (one_property recorded statistics_percentage "n/a")
    (with_rounding_workaround plain_workarounds) statistics_percentage
  = Returns {| row_status := FAIL; row_key := statistics_percentage;
               row_self := "n/a"; row_other := "n/a" |}.
Proof.
  apply (percentage_row_needs_finite_decimal
           (one_property recorded statistics_percentage "n/a")
           (with_rounding_workaround plain_workarounds)).
  - reflexivity.
  - reflexivity.
Defined.

(** With the results tab ignored, the row of a key of the results tab
    is IGNORED whatever the two values are, and the values are not
    compared; but the declared kind is looked at first, so that a kind
    other than json still aborts the comparison. *)
Theorem results_tab_rows_ignored self other w (rest : Key) :
  ignore_wrong_results_in_results_tab w = true →
  (types self !! ("results_tab" :: rest) = None →
   check_key self other w ("results_tab" :: rest)
   = Returns
       {| row_status := IGNORED;
          row_key := "results_tab" :: rest;
          row_self :=
            normalize w (percent_s (properties self !! ("results_tab" :: rest)));
          row_other :=
            normalize w (percent_s (properties other !! ("results_tab" :: rest))) |})
  ∧ (∀ t, types self !! ("results_tab" :: rest) = Some t → t ≠ "json" →
          check_key self other w ("results_tab" :: rest)
          = Raises (RuntimeError "incompatible property data types")).
Proof.
  intros Hw. split.
  - intros Ht. unfold check_key, get_normalized_properties.
    rewrite (declared_types_none _ _ _ Ht). simpl. by rewrite Hw.
  - intros t Ht Hne. unfold check_key.
    rewrite (declared_types_other _ _ _ _ Ht Hne).
    rewrite decide_False by (by intros [= ->]). done.
Qed.

Lemma results_tab_rows_ignored_witness :
  (types (one_property recorded ["results_tab"; "points"] "3")
     !! ["results_tab"; "points"] = None →
   check_key (one_property recorded ["results_tab"; "points"] "3")
     (one_property exported ["results_tab"; "points"] "4")
     (with_ignored_results_tab plain_workarounds) ["results_tab"; "points"]
   = Returns
       {| row_status := IGNORED;
          row_key := ["results_tab"; "points"];
          row_self :=
            normalize (with_ignored_results_tab plain_workarounds)
              (percent_s (properties (one_property recorded ["results_tab"; "points"] "3")
                          !! ["results_tab"; "points"]));
          row_other :=
            normalize (with_ignored_results_tab plain_workarounds)
              (percent_s (properties (one_property exported ["results_tab"; "points"] "4")
                          !! ["results_tab"; "points"])) |})
  ∧ (∀ t, types (one_property recorded ["results_tab"; "points"] "3")
            !! ["results_tab"; "points"] = Some t → t ≠ "json" →
          check_key (one_property recorded ["results_tab"; "points"] "3")
            (one_property exported ["results_tab"; "points"] "4")
            (with_ignored_results_tab plain_workarounds) ["results_tab"; "points"]
          = Raises (RuntimeError "incompatible property data types")).
Proof.
  apply (results_tab_rows_ignored
           (one_property recorded ["results_tab"; "points"] "3")
           (one_property exported ["results_tab"; "points"] "4")
           (with_ignored_results_tab plain_workarounds) ["points"]).
  reflexivity.
Defined.

End CheckAgainstReportFacts.

Module MatchingScoreFacts.
Import matching matching_reference examples MatchingFacts.
Local Open Scope Q_scope.







(** *** [_one_to_one_simple] *)





(** *** [compute_score] *)





(** *** [_readjust_score] *)





End MatchingScoreFacts.

Module ClozeGapFacts.
Import PyStr PyDecimal PyDecimalFacts.
Import cloze cloze_reference cloze_answers examples.

Lemma options_get_absent (options : Options) (text : string) :
  text ∉ options.*1 → options_get options text = 0%Q.
Proof.
  induction options as [|[o s] options IH]; [done|].
  rewrite fmap_cons, not_elem_of_cons. intros [Hne Hnin]. simpl.
  rewrite decide_False by done. by apply IH.
Qed.

Lemma options_get_nonneg (options : Options) (text : string) :
  forallb (λ o, Qle_bool 0 o.2) options = true →
  (0 <= options_get options text)%Q.
Proof.
  induction options as [|[o s] options IH]; simpl; [intros _; lra|].
  rewrite andb_true_iff, Qle_bool_iff. intros [Hs Hrest].
  destruct (decide (o = text)); [done|by apply IH].
Qed.

Lemma first_casefold_match_nonneg (options : Options) (text : string) :
  forallb (λ o, Qle_bool 0 o.2) options = true →
  (0 <= first_casefold_match options text)%Q.
Proof.
  induction options as [|[o s] options IH]; simpl; [intros _; lra|].
  rewrite andb_true_iff, Qle_bool_iff. intros [Hs Hrest].
  destruct (decide (casefold o = casefold text)); [done|by apply IH].
Qed.

Lemma numeric_get_score_cases (g : ClozeQuestionNumericGap) (text : string) :
  numeric_get_score g text = Returns (score g)
  ∨ numeric_get_score g text = Returns 0%Q.
Proof.
  unfold numeric_get_score, numeric_get_score_try.
  destruct (of_string text) as [v|]; simpl; [|by right].
  unfold le.
  destruct (is_nan (numeric_lower g) || is_nan v); simpl; [by right|].
  destruct (cmp (numeric_lower g) v); simpl; try (by right);
    destruct (is_nan v || is_nan (numeric_upper g)); simpl; try (by right);
    destruct (cmp v (numeric_upper g)); simpl; auto.
Qed.

Lemma get_score_returns (gap : Gap) (text : string) :
  ∃ v, get_score gap text = Returns v
       ∧ (nonnegative_gap gap = true → (0 <= v)%Q).
Proof.
  destruct gap as [g|g|g]; simpl.
  - eexists. split; [done|]. unfold text_get_score.
    destruct (text_comparator g);
      [apply first_casefold_match_nonneg|apply options_get_nonneg].
  - eexists. split; [done|]. apply options_get_nonneg.
  - destruct (numeric_get_score_cases g text) as [-> | ->];
      eexists; (split; [done|]); intros H%Qle_bool_iff; lra.
Qed.

Lemma options_get_declared (options : Options) (text : string) :
  options_get options text = 0%Q ∨ options_get options text ∈ options.*2.
Proof.
  induction options as [|[o s] options IH]; simpl; [by left|].
  destruct (decide (o = text)).
  - right. apply list_elem_of_here.
  - destruct IH as [IH|IH]; [by left|right]. by apply list_elem_of_further.
Qed.

Lemma first_casefold_match_declared (options : Options) (text : string) :
  first_casefold_match options text = 0%Q
  ∨ first_casefold_match options text ∈ options.*2.
Proof.
  induction options as [|[o s] options IH]; simpl; [by left|].
  destruct (decide (casefold o = casefold text)).
  - right. apply list_elem_of_here.
  - destruct IH as [IH|IH]; [by left|right]. by apply list_elem_of_further.
Qed.

(** Scoring an answer on a gap never raises, for a gap of any of the
    three types and any text (also a numeric gap whose bounds are NaN);
    the score is 0 or one of the scores the gap declares, and on a gap
    without a negative score it is not negative. *)
Theorem get_score_never_raises (gap : Gap) (text : string) :
  ∃ v, get_score gap text = Returns v
       ∧ (v = 0%Q ∨ v ∈ gap_scores gap)
       ∧ (nonnegative_gap gap = true → (0 <= v)%Q).
Proof.
  destruct (get_score_returns gap text) as (v & Hv & Hnn).
  exists v. split_and!; [done| |done].
  destruct gap as [g|g|g]; simpl in Hv |- *.
  - injection Hv as <-. unfold text_get_score.
    destruct (text_comparator g);
      [apply first_casefold_match_declared|apply options_get_declared].
  - injection Hv as <-. apply options_get_declared.
  - destruct (numeric_get_score_cases g text) as [H|H];
      rewrite H in Hv; injection Hv as <-; [right|by left].
    apply list_elem_of_here.
Qed.

(** An answer that [is_valid_answer] rejects scores 0: a text that is
    none of the options of a select gap, and a text that is no decimal
    on a numeric gap; a text gap rejects no answer. *)
Theorem invalid_answer_scores_nothing (gap : Gap) (text : string) :
  is_valid_answer gap text = false →
  get_score gap text = Returns 0%Q.
Proof.
  destruct gap as [g|g|g]; simpl.
  - done.
  - unfold select_is_valid_answer, select_get_score.
    intros H%bool_decide_eq_false. by rewrite options_get_absent.
  - unfold numeric_is_valid_answer, numeric_get_score, numeric_get_score_try.
    by destruct (of_string text).
Qed.

Lemma invalid_answer_scores_nothing_witness :
  get_score select_gap_yes_no "maybe" = Returns 0%Q.
Proof.
  apply (invalid_answer_scores_nothing select_gap_yes_no "maybe").
  vm_compute. reflexivity.
Defined.

Lemma lower_lower (c : ascii) : lower (lower c) = lower c.
Proof. destruct c as [[] [] [] [] [] [] [] []]; reflexivity. Qed.

Lemma casefold_casefold (s : string) : casefold (casefold s) = casefold s.
Proof.
  unfold casefold. rewrite chars_text. f_equal.
  rewrite List.map_map. apply List.map_ext. intros c. apply lower_lower.
Qed.

Lemma first_casefold_match_ext (options : Options) (a b : string) :
  casefold a = casefold b →
  first_casefold_match options a = first_casefold_match options b.
Proof.
  intros Hab. induction options as [|[o s] options IH]; simpl; [done|].
  rewrite Hab, IH. done.
Qed.

(** A text gap that ignores case scores an answer by its case-folded
    text alone: two answers with the same case-folded text score the
    same, an answer scores what its case-folded text scores, and the
    score is that of the first option, in the order of the options,
    whose case-folded text is that of the answer. *)
Theorem text_gap_ignores_case (g : ClozeQuestionTextGap) (a : string) :
  text_comparator g = ignore_case →
  (∀ b, casefold a = casefold b → text_get_score g a = text_get_score g b)
  ∧ text_get_score g (casefold a) = text_get_score g a
  ∧ (∀ before o s after,
       text_options g = before ++ (o, s) :: after →
       Forall (λ p, casefold p.1 ≠ casefold a) before →
       casefold o = casefold a →
       text_get_score g a = s).
Proof.
  intros Hc. unfold text_get_score. rewrite Hc. split_and!.
  - intros b Hab. by apply first_casefold_match_ext.
  - apply first_casefold_match_ext, casefold_casefold.
  - intros before o s after -> Hbefore Ho.
    induction Hbefore as [|[o' s'] before Hne _ IH]; simpl.
    + by rewrite decide_True.
    + rewrite decide_False by done. apply IH.
Qed.

Lemma text_gap_ignores_case_witness :
  (∀ b, casefold "Paris" = casefold b →
        text_get_score text_gap_paris "Paris" = text_get_score text_gap_paris b)
  ∧ text_get_score text_gap_paris (casefold "Paris")
    = text_get_score text_gap_paris "Paris"
  ∧ (∀ before o s after,
       text_options text_gap_paris = before ++ (o, s) :: after →
       Forall (λ p, casefold p.1 ≠ casefold "Paris") before →
       casefold o = casefold "Paris" →
       text_get_score text_gap_paris "Paris" = s).
Proof.
  apply (text_gap_ignores_case text_gap_paris "Paris").
  reflexivity.
Defined.

End ClozeGapFacts.

Module ClozeScoreFacts.
Import PyStr PyDecimal.
Import cloze cloze_reference cloze_answers examples ClozeGapFacts ClozeFacts.














End ClozeScoreFacts.

Module ExamConfigurationFacts.
Import exam_configuration.
Local Open Scope Q_scope.

Lemma Qmax_0_cases (s : Q) :
  (0 <= s ∧ Qmax s 0 = s) ∨ (s < 0 ∧ Qmax s 0 = 0).
Proof.
  unfold Qmax, GenericMinMax.gmax.
  destruct (s ?= 0) eqn:Hc.
  - left. apply Qeq_alt in Hc. split; [lra|done].
  - right. apply Qlt_alt in Hc. done.
  - left. apply Qgt_alt in Hc. split; [lra|done].
Qed.

(** [clip_answer_score] never lowers a score, is idempotent and
    monotone; when scores are cut per question it gives the score
    itself if that is not negative and 0 otherwise, and with any other
    setting, also none, it gives the score unchanged. *)
Theorem clip_answer_score_laws (self : ExamConfiguration) (score : Q) :
  score <= clip_answer_score self score
  ∧ clip_answer_score self (clip_answer_score self score)
    = clip_answer_score self score
  ∧ (score_cutting self = Some QUESTION →
     0 <= clip_answer_score self score
     ∧ (0 <= score → clip_answer_score self score = score)
     ∧ (score < 0 → clip_answer_score self score = 0))
  ∧ (score_cutting self ≠ Some QUESTION →
     clip_answer_score self score = score)
  ∧ (∀ score', score <= score' →
               clip_answer_score self score <= clip_answer_score self score').
Proof.
  unfold clip_answer_score.
  destruct (score_cutting self) as [[|]|]; split_and!;
    try done; try lra; try (intros; lra).
  - destruct (Qmax_0_cases score) as [[? ->]|[? ->]]; lra.
  - destruct (Qmax_0_cases score) as [[? ->]|[? ->]]; [|done].
    destruct (Qmax_0_cases score) as [[? ->]|[? ->]]; [done|lra].
  - intros _. split_and!.
    + destruct (Qmax_0_cases score) as [[? ->]|[? ->]]; lra.
    + intros H. destruct (Qmax_0_cases score) as [[? ->]|[? ->]]; [done|lra].
    + intros H. destruct (Qmax_0_cases score) as [[? ->]|[? ->]]; [lra|done].
  - intros score' Hle.
    destruct (Qmax_0_cases score) as [[? ->]|[? ->]],
             (Qmax_0_cases score') as [[? ->]|[? ->]]; lra.
Qed.

(** The setters accept the values 0 and 1 and raise ValueError on any
    other value; [set_score_cutting] changes the one setting, after
    [set_score_cutting(0)] a score is clipped at 0, after
    [set_score_cutting(1)] and in a fresh configuration it is not
    clipped. *)
Theorem set_score_cutting_then_clip (self : ExamConfiguration) (score : Q) :
  (∃ c, set_score_cutting self 0 = Returns c
        ∧ clip_answer_score c score = Qmax score 0
        ∧ count_system c = count_system self
        ∧ mc_scoring c = mc_scoring self
        ∧ pass_scoring c = pass_scoring self)
  ∧ (∃ c, set_score_cutting self 1 = Returns c
          ∧ clip_answer_score c score = score)
  ∧ (∀ value, value ≠ 0%Z → value ≠ 1%Z →
       set_score_cutting self value = Raises ValueError
       ∧ set_count_system self value = Raises ValueError
       ∧ set_mc_scoring self value = Raises ValueError
       ∧ set_pass_scoring self value = Raises ValueError)
  ∧ clip_answer_score init score = score.
Proof.
  split_and!.
  - eexists. split; [reflexivity|]. done.
  - eexists. split; [reflexivity|]. done.
  - intros value H0 H1.
    unfold set_score_cutting, set_count_system, set_mc_scoring,
      set_pass_scoring, ScoreCutting_of, CountSystem_of, MCScoring_of,
      PassScoring_of.
    destruct value as [|[p|p|]|p]; done.
  - done.
Qed.

End ExamConfigurationFacts.

Module DiscoveryFacts.
Import discovery.
Local Open Scope nat_scope.

Lemma verify_hello_from_spec (post : nat → Reply) (retries : nat) : ∀ n,
  (∃ m, verify_hello_from post retries n = (true, S m)
        ∧ n ≤ m < n + retries
        ∧ said_hello (post m) = true
        ∧ ∀ k, n ≤ k < m → said_hello (post k) = false)
  ∨ (verify_hello_from post retries n = (false, n + retries)
     ∧ ∀ k, n ≤ k < n + retries → said_hello (post k) = false).
Proof.
  induction retries as [|retries IH]; intros n; simpl.
  - right. split; [f_equal; lia|]. intros k Hk. lia.
  - destruct (said_hello (post n)) eqn:Hn.
    + left. exists n. split_and!; [done|lia..|done|]. intros k Hk. lia.
    + destruct (IH (S n)) as [(m & -> & Hm & Hgood & Hbad)|[-> Hbad]].
      * left. exists m. split_and!; [done|lia..|done|].
        intros k Hk. destruct (decide (k = n)) as [->|]; [done|].
        apply Hbad. lia.
      * right. split; [f_equal; lia|].
        intros k Hk. destruct (decide (k = n)) as [->|]; [done|].
        apply Hbad. lia.
Qed.

(** [verify_hello] makes at most five requests and stops at the first
    that is answered with status 200 and the text "HelloToo": it returns
    True after that request, and False after five requests none of
    which was answered so; a refused connection counts as a request not
    answered. *)
Theorem verify_hello_first_answer (post : nat → Reply) :
  ((verify_hello post).1 = true ↔ ∃ n, n < 5 ∧ said_hello (post n) = true)
  ∧ (verify_hello post).2 ≤ 5
  ∧ (∀ n, verify_hello post = (true, n) →
          ∃ m, n = S m ∧ said_hello (post m) = true
               ∧ ∀ k, k < m → said_hello (post k) = false)
  ∧ (verify_hello post = (false, 5)
     ↔ ∀ k, k < 5 → said_hello (post k) = false)
  ∧ said_hello ConnectionError = false.
Proof.
  unfold verify_hello.
  destruct (verify_hello_from_spec post 5 0)
    as [(m & Hv & Hm & Hgood & Hbad)|[Hv Hbad]]; rewrite Hv; simpl.
  - split_and!.
    + split; [|done]. intros _. exists m. split; [lia|done].
    + lia.
    + intros n [= <-]. exists m. split_and!; [done..|].
      intros k Hk. apply Hbad. lia.
    + split; [done|]. intros H. rewrite H in Hgood by lia. done.
    + done.
  - split_and!.
    + split; [done|]. intros (n & Hn & Hgood).
      rewrite Hbad in Hgood by lia. done.
    + lia.
    + done.
    + split; [|done]. intros _ k Hk. apply Hbad. lia.
    + done.
Qed.

Lemma lookup_host_unfold (gethostbyname : nat → nat → option string) i :
  lookup_host gethostbyname i
  = match gethostbyname i 2 with
    | Some a => Some a
    | None =>
        match gethostbyname i 1 with
        | Some a => Some a
        | None => gethostbyname i 0
        end
    end.
Proof.
  unfold lookup_host. simpl.
  destruct (gethostbyname i 0), (gethostbyname i 1), (gethostbyname i 2); done.
Qed.

Lemma detect_machines_from_spec (gethostbyname : nat → nat → option string)
  (fuel : nat) : ∀ i machines n,
  (∀ j, i ≤ j < n → is_Some (lookup_host gethostbyname j)) →
  lookup_host gethostbyname n = None →
  i ≤ n → n - i < fuel →
  detect_machines_from gethostbyname fuel i machines
  = Some (machines
          ++ List.map (λ j, (j, default "" (lookup_host gethostbyname j)))
               (seq i (n - i))).
Proof.
  induction fuel as [|fuel IH]; intros i machines n Hup Hn Hin Hfuel; [lia|].
  simpl. destruct (decide (i = n)) as [->|Hne].
  - rewrite Hn, Nat.sub_diag. simpl. by rewrite app_nil_r.
  - destruct (Hup i) as [ip Hip]; [lia|]. rewrite Hip.
    rewrite (IH (S i) _ n); [|intros j Hj; apply Hup; lia|done|lia|lia].
    replace (n - i) with (S (n - S i)) by lia. simpl.
    rewrite Hip. simpl. by rewrite <- app_assoc.
Qed.

(** Of the three lookups of a host the last that succeeds gives the
    address, and a host is taken as absent only when all three fail.
    [detect_machines] returns, in the order of their numbers, the
    machines 1 to [n] with their addresses when these are found and
    machine [n + 1] is not, whatever later numbers would resolve to. *)
Theorem detect_machines_contiguous (gethostbyname : nat → nat → option string)
  (n fuel : nat) :
  (∀ i, 1 ≤ i ≤ n → is_Some (lookup_host gethostbyname i)) →
  lookup_host gethostbyname (S n) = None →
  n < fuel →
  (∃ machines,
     detect_machines gethostbyname fuel = Some machines
     ∧ machines.*1 = seq 1 n
     ∧ ∀ i ip, (i, ip) ∈ machines
               ↔ 1 ≤ i ≤ n ∧ lookup_host gethostbyname i = Some ip)
  ∧ (∀ i, lookup_host gethostbyname i = None
          ↔ ∀ t, t < 3 → gethostbyname i t = None)
  ∧ (∀ i ip, gethostbyname i 2 = Some ip →
             lookup_host gethostbyname i = Some ip).
Proof.
  intros Hup Hn Hfuel. split_and!.
  - eexists. split.
    { unfold detect_machines.
      apply (detect_machines_from_spec gethostbyname fuel 1 [] (S n));
        [intros j Hj; apply Hup; lia|done|lia|lia]. }
    replace (S n - 1) with n by lia. simpl. split.
    + rewrite <- list_fmap_compose. unfold compose. simpl.
      apply list_fmap_id.
    + intros i ip. rewrite list_elem_of_In, in_map_iff. split.
      * intros (j & [= <- <-] & Hj%in_seq).
        destruct (Hup j) as [ip' Hip]; [lia|]. rewrite Hip. simpl.
        split; [lia|done].
      * intros [Hi Hip]. exists i. rewrite Hip. simpl. split; [done|].
        apply in_seq. lia.
  - intros i. rewrite lookup_host_unfold. split.
    + intros H t Ht.
      destruct (gethostbyname i 2) eqn:H2; [done|].
      destruct (gethostbyname i 1) eqn:H1; [done|].
      destruct t as [|[|[|t]]]; [done..|lia].
    + intros H. rewrite !H by lia. done.
  - intros i ip H. rewrite lookup_host_unfold. by rewrite H.
Qed.

Lemma detect_machines_contiguous_witness :
  (∃ machines,
     detect_machines
       (λ i t, if (i =? 1)%nat && (t =? 0)%nat then Some "10.0.0.2" else None) 2
     = Some machines
     ∧ machines.*1 = seq 1 1
     ∧ ∀ i ip, (i, ip) ∈ machines
               ↔ 1 ≤ i ≤ 1
                 ∧ lookup_host
                     (λ i t, if (i =? 1)%nat && (t =? 0)%nat
                             then Some "10.0.0.2" else None) i = Some ip)
  ∧ (∀ i, lookup_host
            (λ i t, if (i =? 1)%nat && (t =? 0)%nat
                    then Some "10.0.0.2" else None) i = None
          ↔ ∀ t, t < 3 →
                 (if (i =? 1)%nat && (t =? 0)%nat then Some "10.0.0.2" else None)
                 = None)
  ∧ (∀ i ip,
       (if (i =? 1)%nat && (2 =? 0)%nat then Some "10.0.0.2" else None) = Some ip →
       lookup_host
         (λ i t, if (i =? 1)%nat && (t =? 0)%nat then Some "10.0.0.2" else None) i
       = Some ip).
Proof.
  apply (detect_machines_contiguous
           (λ i t, if (i =? 1)%nat && (t =? 0)%nat then Some "10.0.0.2" else None)
           1 2).
  - intros i Hi. assert (i = 1) as -> by lia. by eexists.
  - reflexivity.
  - lia.
Defined.

End DiscoveryFacts.

Module SimpleMaximumFacts.
Import matching matching_reference matching_bounds examples.
Import MatchingFacts MatchingScoreFacts.
Local Open Scope Q_scope.












(** *** The solver of the model gives no row twice *)





End SimpleMaximumFacts.
